(** * ROI Align (NCHW): a shallow embedding of [topi.vision.rcnn.roi_align]

    The operator of [roi_align.py] builds, for every output coordinate
    [(n, i, c, ph, pw)], the expression computed by its inner function
    [_sample], which samples the feature map through [_bilinear] and reduces
    the samples of a bin with [tvm.max].

    Conventions of the embedding.
    - Floating-point tensor values and coordinates are exact rationals ([Q]);
      rounding, infinities and NaN are outside the model.  A division by the
      constant [0], which only arises for a pooled size of [0], is refused
      when the expression is built: the call raises.
    - Python integers and [int32] expressions are [Z]; conversions between
      the two number kinds are written out ([inject_Z], [astype_int32]), the
      conversion to [int32] with its behaviour beyond the [int32] range.
    - A tensor is its constant shape together with its elements, read by a
      list of indices; element types are not modelled, and the one constant
      that depends on them, the identity of the max reducer, is a parameter.
    - Tuple unpacking that fails raises [ValueError] and a refused division
      raises [TVMError]; the result of the operator is therefore a
      [result]. *)

From Stdlib Require Import ZArith QArith Qround Qminmax Bool List Lia Lqa.
From Stdlib Require Ascii String.
Import ListNotations.

Open Scope Q_scope.

(** ** Errors *)

Inductive exn : Type :=
| ValueError
| TVMError.

Inductive result (A : Type) : Type :=
| Ok (a : A)
| Raise (e : exn).

Arguments Ok {A} a.
Arguments Raise {A} e.

Definition bind {A B : Type} (m : result A) (k : A -> result B) : result B :=
  match m with
  | Ok a => k a
  | Raise e => Raise e
  end.

Notation "' pat <- m ;; k" :=
  (bind m (fun x => match x with pat => k end))
    (at level 61, pat pattern, m at next level, right associativity).

(** [a, b = t], [a, b, c = t] and [a, b, c, d = t]. *)
Definition unpack2 (t : list Z) : result (Z * Z) :=
  match t with
  | [a; b] => Ok (a, b)
  | _ => Raise ValueError
  end.

Definition unpack3 (t : list Z) : result (Z * Z * Z) :=
  match t with
  | [a; b; c] => Ok (a, b, c)
  | _ => Raise ValueError
  end.

Definition unpack4 (t : list Z) : result (Z * Z * Z * Z) :=
  match t with
  | [a; b; c; d] => Ok (a, b, c, d)
  | _ => Raise ValueError
  end.

(** ** Tensors *)

Record Tensor : Type := mkTensor {
  shape : list Z;
  elem : list Z -> Q
}.

(** Modelled from the spec: [get_const_tuple] of [topi.util], which is not
    among the source files.  The shapes of the spec are tuples of constant
    integers, which it returns as they are. *)
Definition get_const_tuple (s : list Z) : list Z := s.

(** [tvm.compute(shape, fcompute)] for a five-argument [fcompute]: the tensor
    whose element at [(n, i, c, ph, pw)] is [fcompute n i c ph pw]. *)
Definition compute (shp : list Z)
    (fcompute : Z -> Z -> Z -> Z -> Z -> Q) : Tensor :=
  {| shape := shp;
     elem := fun idx =>
       match idx with
       | [n; i; c; ph; pw] => fcompute n i c ph pw
       | _ => 0
       end |}.

(** ** Expression primitives *)

Definition Qltb (x y : Q) : bool := negb (Qle_bool y x).

Definition tvm_any (bs : list bool) : bool := existsb (fun b => b) bs.

Definition tvm_ceil (x : Q) : Q := inject_Z (Qceiling x).

(** The range of [int32]. *)
Definition int32_min : Z := (- 2 ^ 31)%Z.
Definition int32_max : Z := (2 ^ 31 - 1)%Z.

Definition fits_int32 (z : Z) : Prop := (int32_min <= z <= int32_max)%Z.

(** Conversion of a float to [int32] truncates towards zero; a value beyond
    the [int32] range converts to the lowest [int32], [-2147483648], as the
    conversion instruction of the compiled kernel does. *)
Definition astype_int32 (x : Q) : Z :=
  let t := if Qle_bool 0 x then Qfloor x else Qceiling x in
  if (int32_min <=? t)%Z && (t <=? int32_max)%Z then t else int32_min.

(** A division by a constant is checked when the expression is built: the
    expression library, whose source is not among the files, refuses the
    constant divisor [0] ("Divide by zero"). *)
Definition tvm_div_by_const (divisor : Z) : result unit :=
  if (divisor =? 0)%Z then Raise TVMError else Ok tt.

(** [tvm.reduce_axis((b, e))]: the integers of [[b, e)], in order. *)
Definition reduce_axis (b e : Z) : list Z :=
  map (fun k => (b + Z.of_nat k)%Z) (seq 0 (Z.to_nat (e - b))).

(** The values of [body] over two reduction axes, first axis outermost. *)
Definition reduce_domain (body : Z -> Z -> Q) (rh rw : list Z) : list Q :=
  flat_map (fun h => map (body h) rw) rh.

(** A commutative reducer combines the values of its domain, starting from
    its identity element.  No value of the element type lies below the
    identity of [tvm.max], so over a non-empty domain the fold from the
    identity is the fold from the first value; the model, whose values are
    unbounded rationals, takes the latter and keeps the identity for the
    empty domain. *)
Definition comm_reducer (fcombine : Q -> Q -> Q) (identity : Q) (xs : list Q) : Q :=
  match xs with
  | [] => identity
  | x :: xs' => fold_left fcombine xs' x
  end.

(** [tvm.max(body, axis=[rh, rw])], with [min_value] the identity element. *)
Definition tvm_max (min_value : Q) (body : Z -> Z -> Q) (rh rw : list Z) : Q :=
  comm_reducer Qmax min_value (reduce_domain body rh rw).

(** Modelled from the spec: the clamping of a neighbour index "to the map's
    valid index range" [[0, max_k]] (spec 4.1). *)
Definition clamp_index (k max_k : Z) : Z := Z.max 0 (Z.min k max_k).

(** Modelled from the spec: [bilinear_sample_nchw] of [topi.cpp.image], whose
    source is not part of the repository files.  Spec 4.1: "standard 2-D
    bilinear interpolation against the four neighboring integer grid points,
    clamped to the map's valid index range so that interpolation never reads
    out of bounds".  [max_y] and [max_x] are the last valid row and column. *)
Definition bilinear_sample_nchw (input : Tensor) (indices : Z * Z * Q * Q)
    (max_y max_x : Z) : Q :=
  let '(i, c, in_y, in_x) := indices in
  let y0 := clamp_index (Qfloor in_y) max_y in
  let y1 := clamp_index (Qceiling in_y) max_y in
  let y_lerp := in_y - inject_Z (Qfloor in_y) in
  let x0 := clamp_index (Qfloor in_x) max_x in
  let x1 := clamp_index (Qceiling in_x) max_x in
  let x_lerp := in_x - inject_Z (Qfloor in_x) in
  let A := elem input [i; c; y0; x0] in
  let B := elem input [i; c; y0; x1] in
  let C := elem input [i; c; y1; x0] in
  let D := elem input [i; c; y1; x1] in
  A * (1 - x_lerp) * (1 - y_lerp) + B * x_lerp * (1 - y_lerp)
  + C * (1 - x_lerp) * y_lerp + D * x_lerp * y_lerp.

(** ** The operator *)

(** [pooled_size : int or list/tuple of two ints]. *)
Inductive pooled_size_t : Type :=
| PoolInt (p : Z)
| PoolSeq (t : list Z).

Section Operator.

(** The identity element of the max reducer, [tvm.min_value] of the element
    type; its declaration is not among the source files. *)
Variable min_value : Q.

Section Closures.

(** The variables the inner functions of [roi_align_nchw] close over. *)
Variables data rois : Tensor.
Variables height width : Z.
Variables pooled_size_h pooled_size_w : Z.
Variable spatial_scale : Q.
Variable sample_ratio : Z.

Definition _bilinear (i c : Z) (y x : Q) : Q :=
  let outside :=
    tvm_any [Qltb y (-1); Qltb x (-1);
             Qltb (inject_Z height) y; Qltb (inject_Z width) x] in
  let y := Qmax y 0 in
  let x := Qmax x 0 in
  let val := bilinear_sample_nchw data (i, c, y, x) (height - 1) (width - 1) in
  if outside then 0 else val.

(** The local variables of [_sample], as functions of the output
    coordinates they depend on. *)
Definition roi (n i k : Z) : Q := elem rois [n; i; k].

Definition roi_start_h (n i : Z) : Q := roi n i 1 * spatial_scale.
Definition roi_end_h (n i : Z) : Q := roi n i 3 * spatial_scale.
Definition roi_start_w (n i : Z) : Q := roi n i 0 * spatial_scale.
Definition roi_end_w (n i : Z) : Q := roi n i 2 * spatial_scale.

(** force malformed ROIs to be 1x1; [1] is [tvm.const(1.0, dtype)]. *)
Definition roi_h (n i : Z) : Q := Qmax (roi_end_h n i - roi_start_h n i) 1.
Definition roi_w (n i : Z) : Q := Qmax (roi_end_w n i - roi_start_w n i) 1.

Definition bin_h (n i : Z) : Q := roi_h n i / inject_Z pooled_size_h.
Definition bin_w (n i : Z) : Q := roi_w n i / inject_Z pooled_size_w.

Definition roi_bin_grid_h (n i : Z) : Z :=
  if (sample_ratio >? 0)%Z then sample_ratio
  else astype_int32 (tvm_ceil (roi_h n i / inject_Z pooled_size_h)).
Definition roi_bin_grid_w (n i : Z) : Z :=
  if (sample_ratio >? 0)%Z then sample_ratio
  else astype_int32 (tvm_ceil (roi_w n i / inject_Z pooled_size_w)).

(** [roi_start_h += ph * bin_h] and [roi_start_w += pw * bin_w]. *)
Definition bin_start_h (n i ph : Z) : Q :=
  roi_start_h n i + inject_Z ph * bin_h n i.
Definition bin_start_w (n i pw : Z) : Q :=
  roi_start_w n i + inject_Z pw * bin_w n i.

(** The two coordinate arguments of the call of [_bilinear]. *)
Definition sample_y (n i ph rh : Z) : Q :=
  bin_start_h n i ph
  + (inject_Z rh + 1) * bin_h n i / (inject_Z (roi_bin_grid_h n i) + 1).
Definition sample_x (n i pw rw : Z) : Q :=
  bin_start_w n i pw
  + (inject_Z rw + 1) * bin_w n i / (inject_Z (roi_bin_grid_w n i) + 1).

Definition _sample (n i c ph pw : Z) : Q :=
  let batch_index := n in
  let count := (roi_bin_grid_h n i * roi_bin_grid_w n i)%Z in
  let rh := reduce_axis 0 (roi_bin_grid_h n i) in
  let rw := reduce_axis 0 (roi_bin_grid_w n i) in
  tvm_max min_value
    (fun rh rw =>
       _bilinear batch_index c (sample_y n i ph rh) (sample_x n i pw rw))
    rh rw.

End Closures.

Definition roi_align_nchw (data rois : Tensor) (pooled_size : pooled_size_t)
    (spatial_scale : Q) (sample_ratio : Z) : result Tensor :=
  '(_, channel, height, width) <- unpack4 (get_const_tuple (shape data)) ;;
  '(num_img, num_roi, _) <- unpack3 (get_const_tuple (shape rois)) ;;
  '(pooled_size_h, pooled_size_w) <-
     match pooled_size with
     | PoolInt p => Ok (p, p)
     | PoolSeq t => unpack2 t
     end ;;
  (* [tvm.compute] builds the expression of [_sample] once, and with it
     [roi_h / pooled_size_h] and [roi_w / pooled_size_w]. *)
  'tt <- tvm_div_by_const pooled_size_h ;;
  'tt <- tvm_div_by_const pooled_size_w ;;
  Ok (compute [num_img; num_roi; channel; pooled_size_h; pooled_size_w]
        (_sample data rois height width pooled_size_h pooled_size_w
           spatial_scale sample_ratio)).

End Operator.

(** ** The components of the specification, in its words *)

(** The four numbers of the ROI row [(n, i)]:
    [(w_start, h_start, w_end, h_end)]. *)
Definition roi_box (rois : Tensor) (n i : Z) : Q * Q * Q * Q :=
  (elem rois [n; i; 0%Z], elem rois [n; i; 1%Z],
   elem rois [n; i; 2%Z], elem rois [n; i; 3%Z]).

(** ROIGeometryMapper: scale the four coordinates, floor the extents at one
    unit, divide them by the pooled sizes; returns
    [(roi_start_h, roi_start_w, bin_h, bin_w)]. *)
Definition ROIGeometryMapper (box : Q * Q * Q * Q) (spatial_scale : Q)
    (pooled_size_h pooled_size_w : Z) : Q * Q * Q * Q :=
  let '(w_start, h_start, w_end, h_end) := box in
  let start_w := w_start * spatial_scale in
  let start_h := h_start * spatial_scale in
  let end_w := w_end * spatial_scale in
  let end_h := h_end * spatial_scale in
  let extent_h := Qmax (end_h - start_h) 1 in
  let extent_w := Qmax (end_w - start_w) 1 in
  (start_h, start_w,
   extent_h / inject_Z pooled_size_h, extent_w / inject_Z pooled_size_w).

(** A coordinate the sampler treats as out of range. *)
Definition out_of_range (height width : Z) (y x : Q) : Prop :=
  y < -1 \/ x < -1 \/ inject_Z height < y \/ inject_Z width < x.

(** [v] is the greatest element of [xs]. *)
Definition is_maximum (v : Q) (xs : list Q) : Prop :=
  In v xs /\ Forall (fun s => s <= v) xs.

(** The sampled values generated for the bin [(n, i, c, ph, pw)]: one value
    of the sampler per point of the [grid_h x grid_w] grid. *)
Definition bin_samples (data rois : Tensor) (height width : Z)
    (pooled_size_h pooled_size_w : Z) (spatial_scale : Q) (sample_ratio : Z)
    (n i c ph pw : Z) : list Q :=
  reduce_domain
    (fun rh rw =>
       _bilinear data height width n c
         (sample_y rois pooled_size_h spatial_scale sample_ratio n i ph rh)
         (sample_x rois pooled_size_w spatial_scale sample_ratio n i pw rw))
    (reduce_axis 0 (roi_bin_grid_h rois pooled_size_h spatial_scale sample_ratio n i))
    (reduce_axis 0 (roi_bin_grid_w rois pooled_size_w spatial_scale sample_ratio n i)).


(** The pooled sizes a [pooled_size] argument stands for. *)
Definition pooled_sizes (pooled_size : pooled_size_t) (h w : Z) : Prop :=
  pooled_size = PoolInt h /\ w = h \/ pooled_size = PoolSeq [h; w].

(** ** Concrete values *)

(** The lowest finite single-precision value, [-(2 - 2^-23) * 2^127]. *)
Definition lowest_float32 : Q := - inject_Z (2 ^ 128 - 2 ^ 104).

(** A [1 x 1 x 4 x 4] feature map holding [0 .. 15] in row-major order. *)
Definition ramp_4x4 : Tensor :=
  {| shape := [1; 1; 4; 4]%Z;
     elem := fun idx =>
       match idx with
       | [_; _; y; x] => inject_Z (4 * y + x)
       | _ => 0
       end |}.

(** A [1 x 1 x 4 x 4] feature map holding [-1] everywhere. *)
Definition negative_4x4 : Tensor :=
  {| shape := [1; 1; 4; 4]%Z;
     elem := fun _ => - (1) |}.

(** A ROI batch for one image, given by its rows and its shape. *)
Definition roi_batch (shp : list Z) (rows : list (list Q)) : Tensor :=
  {| shape := shp;
     elem := fun idx =>
       match idx with
       | [_; i; k] => nth (Z.to_nat k) (nth (Z.to_nat i) rows []) 0
       | _ => 0
       end |}.

(** ** The parameter split of [deploy_rcnn.py]

    The script loads a dict of named arrays and splits it by key prefix into
    the argument and the auxiliary parameters before handing them to the
    front end.  A Python dict is an association list in insertion order;
    reading a missing key is the error [KeyError], written [None]. *)

Module DeployRcnn.

Import String.
Local Open Scope string_scope.

Section Params.

(** The arrays held by the dict; their contents play no role in the split. *)
Variable NDArray : Type.

Definition dict : Type := list (string * NDArray).

(** [d[k]]. *)
Fixpoint dict_get (d : dict) (k : string) : option NDArray :=
  match d with
  | [] => None
  | (k', v) :: d' => if String.eqb k' k then Some v else dict_get d' k
  end.

(** [d[k] = v]: an existing key keeps its place, a new key goes last. *)
Fixpoint dict_set (d : dict) (k : string) (v : NDArray) : dict :=
  match d with
  | [] => [(k, v)]
  | (k', v') :: d' =>
      if String.eqb k' k then (k', v) :: d' else (k', v') :: dict_set d' k v
  end.

(** [d.keys()]. *)
Definition keys (d : dict) : list string := map fst d.

(** [s.startswith(p)]. *)
Definition startswith (s p : string) : bool := prefix p s.

(** [s[n:]]. *)
Fixpoint slice_from (n : nat) (s : string) : string :=
  match n, s with
  | O, _ => s
  | S n', String _ s' => slice_from n' s'
  | S _, EmptyString => EmptyString
  end.

(** The body of the loop, on the pair [(arg, aux)]. *)
Definition split_step (params : dict) (state : option (dict * dict)) (k : string)
    : option (dict * dict) :=
  match state with
  | None => None
  | Some (arg, aux) =>
      if startswith k "arg:" then
        match dict_get params k with
        | Some v => Some (dict_set arg (slice_from 4 k) v, aux)
        | None => None
        end
      else if startswith k "aux:" then
        match dict_get params k with
        | Some v => Some (arg, dict_set aux (slice_from 4 k) v)
        | None => None
        end
      else Some (arg, aux)
  end.

(** [arg, aux = {}, {}] followed by [for k in params.keys(): ...]. *)
Definition split_params (params : dict) : option (dict * dict) :=
  fold_left (split_step params) (keys params) (Some ([], [])).

(** The entries of [d] whose key starts with [p], with [p] cut off. *)
Definition stripped (p : string) (d : dict) : dict :=
  map (fun kv => (slice_from (length p) (fst kv), snd kv))
    (filter (fun kv => startswith (fst kv) p) d).

End Params.

Arguments dict_get {NDArray} d k.
Arguments dict_set {NDArray} d k v.
Arguments keys {NDArray} d.
Arguments split_step {NDArray} params state k.
Arguments split_params {NDArray} params.
Arguments stripped {NDArray} p d.

End DeployRcnn.

(** ** Facts about the primitives *)

Lemma Qltb_lt (x y : Q) : Qltb x y = true <-> x < y.
Proof.
  unfold Qltb. rewrite negb_true_iff. split.
  - intros E. apply Qnot_le_lt. intros L.
    apply Qle_bool_iff in L. congruence.
  - intros L. destruct (Qle_bool y x) eqn:E; [|reflexivity].
    apply Qle_bool_iff in E. exfalso. exact (Qlt_not_le _ _ L E).
Qed.

Lemma tvm_any_true (bs : list bool) : tvm_any bs = true <-> In true bs.
Proof.
  unfold tvm_any. rewrite existsb_exists. split.
  - intros [b [Hin Hb]]. now subst.
  - intros Hin. now exists true.
Qed.

Lemma Qmax_floor_one (x : Q) : 1 <= Qmax x 1.
Proof. apply Q.le_max_r. Qed.

Lemma Qmax_degenerate (x : Q) : x <= 0 -> Qmax x 1 = 1.
Proof.
  intros Hx. unfold Qmax, GenericMinMax.gmax.
  destruct (Qcompare x 1) eqn:E; [ | reflexivity | ].
  - apply Qeq_alt in E. lra.
  - apply Qgt_alt in E. lra.
Qed.

Lemma astype_int32_integral (z : Z) :
  fits_int32 z -> astype_int32 (inject_Z z) = z.
Proof.
  intros [Hlo Hhi]. unfold astype_int32.
  replace (if Qle_bool 0 (inject_Z z) then Qfloor (inject_Z z)
           else Qceiling (inject_Z z)) with z
    by (destruct (Qle_bool 0 (inject_Z z)); [now rewrite Qfloor_Z | now rewrite Qceiling_Z]).
  cbv zeta.
  apply Z.leb_le in Hlo. apply Z.leb_le in Hhi. now rewrite Hlo, Hhi.
Qed.

Lemma astype_int32_overflow (z : Z) :
  ~ fits_int32 z -> astype_int32 (inject_Z z) = int32_min.
Proof.
  intros Hn. unfold astype_int32.
  replace (if Qle_bool 0 (inject_Z z) then Qfloor (inject_Z z)
           else Qceiling (inject_Z z)) with z
    by (destruct (Qle_bool 0 (inject_Z z)); [now rewrite Qfloor_Z | now rewrite Qceiling_Z]).
  cbv zeta.
  destruct ((int32_min <=? z)%Z && (z <=? int32_max)%Z) eqn:E; [|reflexivity].
  apply andb_true_iff in E. destruct E as [Hlo Hhi].
  apply Z.leb_le in Hlo. apply Z.leb_le in Hhi. elim Hn. now split.
Qed.

Lemma astype_int32_ceil (x : Q) :
  fits_int32 (Qceiling x) -> astype_int32 (tvm_ceil x) = Qceiling x.
Proof. apply astype_int32_integral. Qed.

Lemma fits_int32_pos (z : Z) : (1 <= z <= int32_max)%Z -> fits_int32 z.
Proof. unfold fits_int32, int32_min. lia. Qed.

Lemma Qceiling_pos (x : Q) : 0 < x -> (1 <= Qceiling x)%Z.
Proof.
  intros Hx. pose proof (Qle_ceiling x) as Hc.
  assert (L : inject_Z 0 < inject_Z (Qceiling x)).
  { apply Qlt_le_trans with x; assumption. }
  rewrite <- Zlt_Qlt in L. lia.
Qed.

Lemma Qdiv_pos (a : Q) (p : Z) : 0 < a -> (0 < p)%Z -> 0 < a / inject_Z p.
Proof.
  intros Ha Hp. rewrite Zlt_Qlt in Hp. apply Qlt_shift_div_l.
  - exact Hp.
  - now rewrite Qmult_0_l.
Qed.

Lemma reduce_axis_In (e k : Z) : In k (reduce_axis 0 e) <-> (0 <= k < e)%Z.
Proof.
  unfold reduce_axis. rewrite in_map_iff. split.
  - intros [m [Hm Hin]]. apply in_seq in Hin. lia.
  - intros Hk. exists (Z.to_nat k). split; [lia|].
    apply in_seq. lia.
Qed.


Lemma reduce_domain_In (body : Z -> Z -> Q) (rh rw : list Z) (s : Q) :
  In s (reduce_domain body rh rw) <->
  exists h w, In h rh /\ In w rw /\ s = body h w.
Proof.
  unfold reduce_domain. rewrite in_flat_map. split.
  - intros [h [Hh Hs]]. apply in_map_iff in Hs.
    destruct Hs as [w [Hs Hw]]. exists h, w. auto.
  - intros [h [w [Hh [Hw Hs]]]]. exists h. split; [exact Hh|].
    apply in_map_iff. exists w. auto.
Qed.


Lemma reduce_domain_ext (f g : Z -> Z -> Q) (rh rw : list Z) :
  (forall h w, f h w = g h w) -> reduce_domain f rh rw = reduce_domain g rh rw.
Proof.
  intros E. unfold reduce_domain. apply flat_map_ext. intros h.
  apply map_ext. intros w. apply E.
Qed.

(** ** BilinearSampler: the guard of [_bilinear] *)

Section BilinearSampler.

Variable data : Tensor.
Variables height width : Z.

Lemma bilinear_outside (i c : Z) (y x : Q) :
  out_of_range height width y x -> _bilinear data height width i c y x = 0.
Proof.
  intros Ho. unfold _bilinear.
  replace (tvm_any _) with true; [reflexivity|].
  symmetry. apply tvm_any_true. simpl.
  destruct Ho as [H | [H | [H | H]]]; apply Qltb_lt in H; rewrite H; tauto.
Qed.

Lemma bilinear_inside (i c : Z) (y x : Q) :
  ~ out_of_range height width y x ->
  _bilinear data height width i c y x =
  bilinear_sample_nchw data (i, c, Qmax y 0, Qmax x 0) (height - 1) (width - 1).
Proof.
  intros Hn. unfold _bilinear.
  replace (tvm_any _) with false; [reflexivity|].
  symmetry. apply not_true_is_false. intros Ht.
  apply tvm_any_true in Ht. apply Hn. unfold out_of_range.
  simpl in Ht. rewrite <- !Qltb_lt.
  destruct Ht as [H | [H | [H | [H | []]]]]; rewrite <- H; tauto.
Qed.

End BilinearSampler.

(** C2 (as amended).  The sampler returns exactly [0] whenever the unclamped
    coordinate satisfies [y < -1], [x < -1], [y > height] or [x > width],
    where [height] and [width] are the sizes of the feature map (not its last
    valid indices), whatever the feature map holds; otherwise it clamps [y]
    and [x] to be at least [0] and returns the bilinear sample at the clamped
    coordinate, taken with the last valid row and column [height - 1] and
    [width - 1] as index bounds. *)
Theorem bilinear_zero_beyond_map_size (data : Tensor) (height width i c : Z) (y x : Q) :
  ((y < -1 \/ x < -1 \/ inject_Z height < y \/ inject_Z width < x) ->
   forall data', _bilinear data' height width i c y x = 0)
  /\
  (~ (y < -1 \/ x < -1 \/ inject_Z height < y \/ inject_Z width < x) ->
   0 <= Qmax y 0 /\ 0 <= Qmax x 0 /\
   _bilinear data height width i c y x =
   bilinear_sample_nchw data (i, c, Qmax y 0, Qmax x 0) (height - 1) (width - 1)).
Proof.
  split.
  - intros Ho data'. now apply bilinear_outside.
  - intros Hn. repeat split; try apply Q.le_max_r.
    now apply bilinear_inside.
Qed.

Lemma bilinear_zero_beyond_map_size_witness :
  (inject_Z 4 < 9 # 2 /\ _bilinear ramp_4x4 4 4 0 0 (9 # 2) 0 = 0)
  /\
  (~ (3 # 2 < -1 \/ 1 # 2 < -1 \/ inject_Z 4 < 3 # 2 \/ inject_Z 4 < 1 # 2) /\
   _bilinear ramp_4x4 4 4 0 0 (3 # 2) (1 # 2) =
   bilinear_sample_nchw ramp_4x4 (0%Z, 0%Z, Qmax (3 # 2) 0, Qmax (1 # 2) 0) (4 - 1) (4 - 1)).
Proof.
  assert (N : ~ (3 # 2 < -1 \/ 1 # 2 < -1 \/ inject_Z 4 < 3 # 2 \/ inject_Z 4 < 1 # 2)).
  { intros [H | [H | [H | H]]]; discriminate H. }
  split.
  - split; [reflexivity|].
    apply (proj1 (bilinear_zero_beyond_map_size ramp_4x4 4 4 0 0 (9 # 2) 0)).
    right; right; left; reflexivity.
  - split; [exact N|].
    apply (proj2 (bilinear_zero_beyond_map_size ramp_4x4 4 4 0 0 (3 # 2) (1 # 2)) N).
Defined.

(** C2 as stated fails: on the [4 x 4] map the last valid row is [3], the
    coordinate [y = 7/2] lies beyond it, and the sampler returns [12], the
    value of row [3], not [0]. *)
Lemma bilinear_last_index_counterexample :
  unpack4 (get_const_tuple (shape ramp_4x4)) = Ok (1, 1, 4, 4)%Z /\
  inject_Z (4 - 1) < 7 # 2 /\
  _bilinear ramp_4x4 4 4 0 0 (7 # 2) 0 == 12 /\
  ~ _bilinear ramp_4x4 4 4 0 0 (7 # 2) 0 == 0.
Proof.
  repeat split; try reflexivity.
  intros H. vm_compute in H. discriminate H.
Qed.

(** ** ROIGeometryMapper and SampleGridGenerator: the locals of [_sample] *)

Section Geometry.

Variable rois : Tensor.
Variables pooled_size_h pooled_size_w : Z.
Variable spatial_scale : Q.
Variable sample_ratio : Z.

Lemma roi_h_ge_1 (n i : Z) : 1 <= roi_h rois spatial_scale n i.
Proof. apply Qmax_floor_one. Qed.

Lemma roi_w_ge_1 (n i : Z) : 1 <= roi_w rois spatial_scale n i.
Proof. apply Qmax_floor_one. Qed.

Lemma bin_h_pos (n i : Z) :
  (0 < pooled_size_h)%Z -> 0 < bin_h rois pooled_size_h spatial_scale n i.
Proof.
  intros Hp. apply Qdiv_pos; [|exact Hp].
  pose proof (roi_h_ge_1 n i). lra.
Qed.

Lemma bin_w_pos (n i : Z) :
  (0 < pooled_size_w)%Z -> 0 < bin_w rois pooled_size_w spatial_scale n i.
Proof.
  intros Hp. apply Qdiv_pos; [|exact Hp].
  pose proof (roi_w_ge_1 n i). lra.
Qed.

Lemma grid_h_fixed (n i : Z) :
  (0 < sample_ratio)%Z ->
  roi_bin_grid_h rois pooled_size_h spatial_scale sample_ratio n i = sample_ratio.
Proof.
  intros Hr. unfold roi_bin_grid_h.
  destruct (Z.gtb_spec sample_ratio 0) as [_ | Hle]; [reflexivity | lia].
Qed.

Lemma grid_w_fixed (n i : Z) :
  (0 < sample_ratio)%Z ->
  roi_bin_grid_w rois pooled_size_w spatial_scale sample_ratio n i = sample_ratio.
Proof.
  intros Hr. unfold roi_bin_grid_w.
  destruct (Z.gtb_spec sample_ratio 0) as [_ | Hle]; [reflexivity | lia].
Qed.

Lemma grid_h_adaptive (n i : Z) :
  (sample_ratio <= 0)%Z ->
  fits_int32 (Qceiling (bin_h rois pooled_size_h spatial_scale n i)) ->
  roi_bin_grid_h rois pooled_size_h spatial_scale sample_ratio n i =
  Qceiling (bin_h rois pooled_size_h spatial_scale n i).
Proof.
  intros Hr Hf. unfold roi_bin_grid_h.
  destruct (Z.gtb_spec sample_ratio 0) as [Hgt | _]; [lia|].
  now apply astype_int32_ceil.
Qed.

Lemma grid_w_adaptive (n i : Z) :
  (sample_ratio <= 0)%Z ->
  fits_int32 (Qceiling (bin_w rois pooled_size_w spatial_scale n i)) ->
  roi_bin_grid_w rois pooled_size_w spatial_scale sample_ratio n i =
  Qceiling (bin_w rois pooled_size_w spatial_scale n i).
Proof.
  intros Hr Hf. unfold roi_bin_grid_w.
  destruct (Z.gtb_spec sample_ratio 0) as [Hgt | _]; [lia|].
  now apply astype_int32_ceil.
Qed.



End Geometry.

(** C5.  After the four coordinates of the ROI row are scaled by
    [spatial_scale], the extents used for binning are
    [roi_h = max(end_h - start_h, 1)] and [roi_w = max(end_w - start_w, 1)]:
    they are at least [1], a ROI with [end <= start] after scaling gets the
    extent exactly [1], and the bin sizes divide these extents by the pooled
    sizes; the scaled start coordinates are used as they are, whatever their
    sign, as the origin of the bins. *)
Theorem roi_extent_floored_at_one (rois : Tensor) (pooled_size_h pooled_size_w : Z)
    (spatial_scale : Q) (n i : Z) :
  let start_w := elem rois [n; i; 0%Z] * spatial_scale in
  let start_h := elem rois [n; i; 1%Z] * spatial_scale in
  let end_w := elem rois [n; i; 2%Z] * spatial_scale in
  let end_h := elem rois [n; i; 3%Z] * spatial_scale in
  let extent_h := roi_h rois spatial_scale n i in
  let extent_w := roi_w rois spatial_scale n i in
  (extent_h = Qmax (end_h - start_h) 1 /\ extent_w = Qmax (end_w - start_w) 1)
  /\ (1 <= extent_h /\ 1 <= extent_w)
  /\ ((end_h <= start_h -> extent_h = 1) /\ (end_w <= start_w -> extent_w = 1))
  /\ (bin_h rois pooled_size_h spatial_scale n i = extent_h / inject_Z pooled_size_h /\
      bin_w rois pooled_size_w spatial_scale n i = extent_w / inject_Z pooled_size_w)
  /\ (forall ph, bin_start_h rois pooled_size_h spatial_scale n i ph =
                 start_h + inject_Z ph * (extent_h / inject_Z pooled_size_h))
  /\ (forall pw, bin_start_w rois pooled_size_w spatial_scale n i pw =
                 start_w + inject_Z pw * (extent_w / inject_Z pooled_size_w)).
Proof.
  cbv zeta.
  split; [split; reflexivity|].
  split; [split; [apply roi_h_ge_1 | apply roi_w_ge_1]|].
  split; [split; intros Hd; apply Qmax_degenerate|].
  - unfold roi_end_h, roi_start_h, roi. lra.
  - unfold roi_end_w, roi_start_w, roi. lra.
  - split; [split; reflexivity|]. split; intros; reflexivity.
Qed.

(** A degenerate ROI: [h_end = h_start = 2] and [w_end < w_start]. *)
Lemma roi_extent_floored_at_one_witness :
  let rois := roi_batch [1; 1; 4]%Z [[3; 2; 1; 2]] in
  (elem rois [0; 0; 3]%Z * (1 # 2) <= elem rois [0; 0; 1]%Z * (1 # 2) /\
   roi_h rois (1 # 2) 0 0 = 1)
  /\
  (elem rois [0; 0; 2]%Z * (1 # 2) <= elem rois [0; 0; 0]%Z * (1 # 2) /\
   roi_w rois (1 # 2) 0 0 = 1).
Proof.
  intros rois.
  pose proof (roi_extent_floored_at_one rois 2 2 (1 # 2) 0 0) as T.
  cbv zeta in T. destruct T as [_ [_ [[Th Tw] _]]].
  split; (split; [ vm_compute; discriminate | ]).
  - apply Th. vm_compute. discriminate.
  - apply Tw. vm_compute. discriminate.
Defined.







(** ** BinReducer: the max reduction *)

Lemma Qmax_cases (x y : Q) : Qmax x y = x \/ Qmax x y = y.
Proof.
  unfold Qmax, GenericMinMax.gmax. destruct (Qcompare x y); auto.
Qed.

Lemma fold_max_ge_init (xs : list Q) (a : Q) : a <= fold_left Qmax xs a.
Proof.
  revert a. induction xs as [|x xs IH]; intros a; simpl.
  - apply Qle_refl.
  - apply Qle_trans with (Qmax a x); [apply Q.le_max_l | apply IH].
Qed.

Lemma fold_max_upper (xs : list Q) (a : Q) :
  Forall (fun s => s <= fold_left Qmax xs a) xs.
Proof.
  revert a. induction xs as [|x xs IH]; intros a; simpl; constructor.
  - apply Qle_trans with (Qmax a x); [apply Q.le_max_r | apply fold_max_ge_init].
  - apply IH.
Qed.

Lemma fold_max_attained (xs : list Q) (a : Q) :
  fold_left Qmax xs a = a \/ In (fold_left Qmax xs a) xs.
Proof.
  revert a. induction xs as [|x xs IH]; intros a; simpl.
  - now left.
  - destruct (IH (Qmax a x)) as [E | Hin].
    + rewrite E. destruct (Qmax_cases a x) as [Ea | Ex]; rewrite ?Ea, ?Ex; auto.
    + auto.
Qed.

Lemma max_reducer_is_maximum (identity : Q) (xs : list Q) :
  xs <> [] -> is_maximum (comm_reducer Qmax identity xs) xs.
Proof.
  destruct xs as [|x xs]; [congruence|]. intros _. simpl. split.
  - destruct (fold_max_attained xs x) as [E | Hin]; [left; now rewrite E | now right].
  - constructor; [apply fold_max_ge_init | apply fold_max_upper].
Qed.




(** ** ROIAlignKernel: [_sample] and the operator *)

Section Kernel.

Variable min_value : Q.
Variables data rois : Tensor.
Variables height width : Z.
Variables pooled_size_h pooled_size_w : Z.
Variable spatial_scale : Q.
Variable sample_ratio : Z.

Lemma sample_reduces_bin (n i c ph pw : Z) :
  _sample min_value data rois height width pooled_size_h pooled_size_w spatial_scale
    sample_ratio n i c ph pw =
  comm_reducer Qmax min_value
    (bin_samples data rois height width pooled_size_h pooled_size_w
       spatial_scale sample_ratio n i c ph pw).
Proof. reflexivity. Qed.

Lemma bin_samples_In (n i c ph pw : Z) (s : Q) :
  In s (bin_samples data rois height width pooled_size_h pooled_size_w
          spatial_scale sample_ratio n i c ph pw) <->
  exists rh rw,
    (0 <= rh < roi_bin_grid_h rois pooled_size_h spatial_scale sample_ratio n i)%Z /\
    (0 <= rw < roi_bin_grid_w rois pooled_size_w spatial_scale sample_ratio n i)%Z /\
    s = _bilinear data height width n c
          (sample_y rois pooled_size_h spatial_scale sample_ratio n i ph rh)
          (sample_x rois pooled_size_w spatial_scale sample_ratio n i pw rw).
Proof.
  unfold bin_samples. rewrite reduce_domain_In.
  split; intros [rh [rw [Hh [Hw Hs]]]]; exists rh, rw.
  - apply reduce_axis_In in Hh. apply reduce_axis_In in Hw. auto.
  - rewrite !reduce_axis_In. auto.
Qed.




End Kernel.

Lemma roi_align_nchw_ok (min_value : Q) (data rois : Tensor) (pooled_size : pooled_size_t)
    (spatial_scale : Q) (sample_ratio : Z)
    (batch channel height width num_img num_roi last ph_ pw_ : Z) :
  shape data = [batch; channel; height; width] ->
  shape rois = [num_img; num_roi; last] ->
  pooled_sizes pooled_size ph_ pw_ ->
  ph_ <> 0%Z -> pw_ <> 0%Z ->
  roi_align_nchw min_value data rois pooled_size spatial_scale sample_ratio =
  Ok (compute [num_img; num_roi; channel; ph_; pw_]
        (_sample min_value data rois height width ph_ pw_ spatial_scale sample_ratio)).
Proof.
  intros Hd Hr Hp Nh Nw. unfold roi_align_nchw, get_const_tuple, tvm_div_by_const.
  apply Z.eqb_neq in Nh. apply Z.eqb_neq in Nw.
  rewrite Hd, Hr. simpl.
  destruct Hp as [[Hp Hw] | Hp]; subst; simpl; rewrite Nh; simpl; rewrite ?Nw;
    reflexivity.
Qed.

Lemma roi_align_nchw_div_by_zero (min_value : Q) (data rois : Tensor)
    (pooled_size : pooled_size_t) (spatial_scale : Q) (sample_ratio : Z)
    (batch channel height width num_img num_roi last ph_ pw_ : Z) :
  shape data = [batch; channel; height; width] ->
  shape rois = [num_img; num_roi; last] ->
  pooled_sizes pooled_size ph_ pw_ ->
  ph_ = 0%Z \/ pw_ = 0%Z ->
  roi_align_nchw min_value data rois pooled_size spatial_scale sample_ratio =
  Raise TVMError.
Proof.
  intros Hd Hr Hp Hz. unfold roi_align_nchw, get_const_tuple, tvm_div_by_const.
  rewrite Hd, Hr. simpl.
  destruct Hp as [[Hp Hw] | Hp]; subst; simpl.
  - assert (E : (ph_ =? 0)%Z = true) by (apply Z.eqb_eq; tauto).
    now rewrite E.
  - destruct (ph_ =? 0)%Z eqn:Eh; [reflexivity|]. simpl.
    apply Z.eqb_neq in Eh. destruct Hz as [Hz | Hz]; [contradiction|].
    subst pw_. reflexivity.
Qed.

(** *** Where the sample points of a bin lie *)

Lemma grid_offset_bounds (b : Q) (g r : Z) :
  0 < b -> (0 <= r < g)%Z ->
  0 < (inject_Z r + 1) * b / (inject_Z g + 1) /\
  (inject_Z r + 1) * b / (inject_Z g + 1) < b.
Proof.
  intros Hb [Hr0 Hrg].
  rewrite Zle_Qle in Hr0. rewrite Zlt_Qlt in Hrg.
  change (inject_Z 0) with 0 in Hr0.
  set (R := inject_Z r) in *. set (G := inject_Z g) in *.
  assert (HG : 0 < G + 1) by lra.
  assert (HR : 0 < R + 1) by lra.
  split.
  - apply Qlt_shift_div_l; [exact HG|].
    rewrite Qmult_0_l. now apply Qmult_lt_0_compat.
  - apply Qlt_shift_div_r; [exact HG|].
    assert (P : 0 < (G - R) * b) by (apply Qmult_lt_0_compat; lra).
    lra.
Qed.

Lemma bin_offset_bounds (extent : Q) (p k : Z) :
  (0 < p)%Z -> (0 <= k < p)%Z -> 0 < extent ->
  0 <= inject_Z k * (extent / inject_Z p) /\
  inject_Z k * (extent / inject_Z p) + extent / inject_Z p <= extent.
Proof.
  intros Hp [Hk0 Hkp] He.
  assert (Hb : 0 < extent / inject_Z p) by now apply Qdiv_pos.
  assert (Hk1 : (k + 1 <= p)%Z) by lia.
  rewrite Zle_Qle in Hk0, Hk1. rewrite Zlt_Qlt in Hp.
  rewrite inject_Z_plus in Hk1.
  change (inject_Z 0) with 0 in *. change (inject_Z 1) with 1 in *.
  assert (Hpb : inject_Z p * (extent / inject_Z p) == extent).
  { apply Qmult_div_r. lra. }
  set (K := inject_Z k) in *. set (P := inject_Z p) in *.
  set (b := extent / P) in *.
  split.
  - now apply Qmult_le_0_compat; [|lra].
  - assert (M : 0 <= (P - (K + 1)) * b) by (apply Qmult_le_0_compat; lra).
    lra.
Qed.

Section SamplePoints.

Variable rois : Tensor.
Variables pooled_size_h pooled_size_w : Z.
Variable spatial_scale : Q.
Variable sample_ratio : Z.
Hypothesis pooled_h_pos : (0 < pooled_size_h)%Z.
Hypothesis pooled_w_pos : (0 < pooled_size_w)%Z.

Lemma sample_y_in_roi (n i ph rh : Z) :
  (0 <= ph < pooled_size_h)%Z ->
  (0 <= rh < roi_bin_grid_h rois pooled_size_h spatial_scale sample_ratio n i)%Z ->
  roi_start_h rois spatial_scale n i
  < sample_y rois pooled_size_h spatial_scale sample_ratio n i ph rh /\
  sample_y rois pooled_size_h spatial_scale sample_ratio n i ph rh
  < roi_start_h rois spatial_scale n i + roi_h rois spatial_scale n i.
Proof.
  intros Hph Hrh. unfold sample_y, bin_start_h.
  pose proof (roi_h_ge_1 rois spatial_scale n i) as He.
  assert (He' : 0 < roi_h rois spatial_scale n i) by lra.
  pose proof (bin_h_pos rois pooled_size_h spatial_scale n i pooled_h_pos) as Hb.
  destruct (grid_offset_bounds _ _ _ Hb Hrh) as [G1 G2].
  destruct (bin_offset_bounds _ _ _ pooled_h_pos Hph He') as [B1 B2].
  fold (bin_h rois pooled_size_h spatial_scale n i) in B1, B2.
  split; lra.
Qed.

Lemma sample_x_in_roi (n i pw rw : Z) :
  (0 <= pw < pooled_size_w)%Z ->
  (0 <= rw < roi_bin_grid_w rois pooled_size_w spatial_scale sample_ratio n i)%Z ->
  roi_start_w rois spatial_scale n i
  < sample_x rois pooled_size_w spatial_scale sample_ratio n i pw rw /\
  sample_x rois pooled_size_w spatial_scale sample_ratio n i pw rw
  < roi_start_w rois spatial_scale n i + roi_w rois spatial_scale n i.
Proof.
  intros Hpw Hrw. unfold sample_x, bin_start_w.
  pose proof (roi_w_ge_1 rois spatial_scale n i) as He.
  assert (He' : 0 < roi_w rois spatial_scale n i) by lra.
  pose proof (bin_w_pos rois pooled_size_w spatial_scale n i pooled_w_pos) as Hb.
  destruct (grid_offset_bounds _ _ _ Hb Hrw) as [G1 G2].
  destruct (bin_offset_bounds _ _ _ pooled_w_pos Hpw He') as [B1 B2].
  fold (bin_w rois pooled_size_w spatial_scale n i) in B1, B2.
  split; lra.
Qed.

End SamplePoints.




(** C3.  With [(roi_start_h, roi_start_w, bin_h, bin_w)] the geometry mapping
    of the ROI row [(n, i)], the sampler is called, for every sample index
    [(rh, rw)] of the grid, at
    [y = roi_start_h + ph * bin_h + (rh + 1) * bin_h / (grid_h + 1)] and
    [x = roi_start_w + pw * bin_w + (rw + 1) * bin_w / (grid_w + 1)]:
    these are the coordinate arguments of [_sample], the sampled values of the
    bin are the sampler's values at them, and [_sample] reduces exactly
    those. *)
Theorem sample_coordinates (min_value : Q) (data rois : Tensor) (height width : Z)
    (pooled_size_h pooled_size_w : Z) (spatial_scale : Q) (sample_ratio : Z)
    (n i c ph pw : Z) :
  let '(start_h, start_w, b_h, b_w) :=
    ROIGeometryMapper (roi_box rois n i) spatial_scale pooled_size_h pooled_size_w in
  let grid_h := roi_bin_grid_h rois pooled_size_h spatial_scale sample_ratio n i in
  let grid_w := roi_bin_grid_w rois pooled_size_w spatial_scale sample_ratio n i in
  let y := fun rh : Z =>
    start_h + inject_Z ph * b_h + (inject_Z rh + 1) * b_h / (inject_Z grid_h + 1) in
  let x := fun rw : Z =>
    start_w + inject_Z pw * b_w + (inject_Z rw + 1) * b_w / (inject_Z grid_w + 1) in
  (forall rh, sample_y rois pooled_size_h spatial_scale sample_ratio n i ph rh = y rh)
  /\ (forall rw, sample_x rois pooled_size_w spatial_scale sample_ratio n i pw rw = x rw)
  /\ (forall s,
        In s (bin_samples data rois height width pooled_size_h pooled_size_w
                spatial_scale sample_ratio n i c ph pw) <->
        exists rh rw,
          (0 <= rh < grid_h)%Z /\ (0 <= rw < grid_w)%Z /\
          s = _bilinear data height width n c (y rh) (x rw))
  /\ _sample min_value data rois height width pooled_size_h pooled_size_w spatial_scale
       sample_ratio n i c ph pw =
     tvm_max min_value (fun rh rw => _bilinear data height width n c (y rh) (x rw))
       (reduce_axis 0 grid_h) (reduce_axis 0 grid_w).
Proof.
  unfold ROIGeometryMapper, roi_box. cbv beta iota zeta.
  split; [intros rh; reflexivity|].
  split; [intros rw; reflexivity|].
  split; [|reflexivity].
  intros s. apply bin_samples_In.
Qed.

(** C7.  The output element [(n, i, c, ph, pw)] is determined by the feature
    map, the ROI row [(n, i)] and the configuration: two calls on ROI batches
    that agree on that row give equal values there, whatever the other rows
    (and the shapes of the batches) are. *)
Theorem output_depends_on_own_roi_row (min_value : Q) (data rois1 rois2 : Tensor)
    (pooled_size : pooled_size_t) (spatial_scale : Q) (sample_ratio : Z)
    (n i c ph pw : Z) (out1 out2 : Tensor) :
  (forall k, (0 <= k < 4)%Z -> elem rois1 [n; i; k] = elem rois2 [n; i; k]) ->
  roi_align_nchw min_value data rois1 pooled_size spatial_scale sample_ratio = Ok out1 ->
  roi_align_nchw min_value data rois2 pooled_size spatial_scale sample_ratio = Ok out2 ->
  elem out1 [n; i; c; ph; pw] = elem out2 [n; i; c; ph; pw].
Proof.
  intros Hrow E1 E2.
  unfold roi_align_nchw, get_const_tuple in E1, E2.
  destruct (unpack4 (shape data)) as [[[[b ch] h] w] | e]; simpl in E1, E2;
    [|discriminate].
  destruct (unpack3 (shape rois1)) as [[[ni1 nr1] l1] | e1]; simpl in E1;
    [|discriminate].
  destruct (unpack3 (shape rois2)) as [[[ni2 nr2] l2] | e2]; simpl in E2;
    [|discriminate].
  destruct (match pooled_size with PoolInt p => Ok (p, p) | PoolSeq t => unpack2 t end)
    as [[ph_ pw_] | e]; simpl in E1, E2; [|discriminate].
  destruct (tvm_div_by_const ph_) as [[] | e]; simpl in E1, E2; [|discriminate].
  destruct (tvm_div_by_const pw_) as [[] | e]; simpl in E1, E2; [|discriminate].
  injection E1 as E1. injection E2 as E2. subst out1 out2. simpl.
  unfold _sample, sample_y, sample_x, bin_start_h, bin_start_w,
    roi_bin_grid_h, roi_bin_grid_w, bin_h, bin_w, roi_h, roi_w,
    roi_start_h, roi_end_h, roi_start_w, roi_end_w, roi.
  rewrite (Hrow 0%Z), (Hrow 1%Z), (Hrow 2%Z), (Hrow 3%Z) by lia.
  reflexivity.
Qed.

(** Two batches of different shapes that share their row [(0, 1)] only. *)
Lemma output_depends_on_own_roi_row_witness :
  let rois1 := roi_batch [1; 2; 4]%Z [[0; 0; 3; 3]; [1; 1; 2; 3]] in
  let rois2 := roi_batch [1; 3; 4]%Z [[2; 0; 9; 1]; [1; 1; 2; 3]; [0; 1; 1; 2]] in
  exists out1 out2,
    roi_align_nchw lowest_float32 ramp_4x4 rois1 (PoolInt 2) 1 (-1) = Ok out1 /\
    roi_align_nchw lowest_float32 ramp_4x4 rois2 (PoolInt 2) 1 (-1) = Ok out2 /\
    elem rois1 [0; 0; 0]%Z <> elem rois2 [0; 0; 0]%Z /\
    elem out1 [0; 1; 0; 1; 0]%Z = elem out2 [0; 1; 0; 1; 0]%Z.
Proof.
  intros rois1 rois2. eexists. eexists.
  split; [reflexivity|]. split; [reflexivity|].
  split; [discriminate|].
  apply (output_depends_on_own_roi_row lowest_float32 ramp_4x4 rois1 rois2 (PoolInt 2) 1 (-1)
           0 1 0 1 0); [|reflexivity|reflexivity].
  intros k Hk.
  assert (K : k = 0%Z \/ k = 1%Z \/ k = 2%Z \/ k = 3%Z) by lia.
  destruct K as [K | [K | [K | K]]]; subst k; reflexivity.
Defined.

(** C10.  When the grid of a bin has an out-of-range sample point, that point
    is not skipped: it enters the max reduction with the value [0], so the
    output element is at least [0], whatever the in-range samples are. *)
Theorem out_of_range_sample_counts_as_zero (min_value : Q) (data rois : Tensor) (height width : Z)
    (pooled_size_h pooled_size_w : Z) (spatial_scale : Q) (sample_ratio : Z)
    (n i c ph pw rh rw : Z) :
  (0 <= rh < roi_bin_grid_h rois pooled_size_h spatial_scale sample_ratio n i)%Z ->
  (0 <= rw < roi_bin_grid_w rois pooled_size_w spatial_scale sample_ratio n i)%Z ->
  (sample_y rois pooled_size_h spatial_scale sample_ratio n i ph rh < -1 \/
   sample_x rois pooled_size_w spatial_scale sample_ratio n i pw rw < -1 \/
   inject_Z height < sample_y rois pooled_size_h spatial_scale sample_ratio n i ph rh \/
   inject_Z width < sample_x rois pooled_size_w spatial_scale sample_ratio n i pw rw) ->
  In 0 (bin_samples data rois height width pooled_size_h pooled_size_w
          spatial_scale sample_ratio n i c ph pw) /\
  0 <= _sample min_value data rois height width pooled_size_h pooled_size_w spatial_scale
         sample_ratio n i c ph pw.
Proof.
  intros Hrh Hrw Ho.
  assert (Hin : In 0 (bin_samples data rois height width pooled_size_h pooled_size_w
                        spatial_scale sample_ratio n i c ph pw)).
  { apply bin_samples_In. exists rh, rw. split; [exact Hrh|]. split; [exact Hrw|].
    symmetry. now apply bilinear_outside. }
  split; [exact Hin|].
  rewrite sample_reduces_bin.
  destruct (max_reducer_is_maximum min_value _
              (fun E => in_nil (eq_ind _ (In 0) Hin _ E))) as [_ Hub].
  rewrite Forall_forall in Hub. now apply Hub.
Qed.

(** An [8 x 8] ROI over the [4 x 4] map of [-1]s, one bin, a [2 x 2] grid:
    the sample at [(8/3, 8/3)] is [-1], the one at [(16/3, 16/3)] is out of
    range, and the output is not negative. *)
Lemma out_of_range_sample_counts_as_zero_witness :
  let rois := roi_batch [1; 1; 4]%Z [[0; 0; 8; 8]] in
  inject_Z 4 < sample_y rois 1 1 2 0 0 0 1 /\
  _bilinear negative_4x4 4 4 0 0 (sample_y rois 1 1 2 0 0 0 0) (sample_x rois 1 1 2 0 0 0 0)
    == - (1) /\
  0 <= _sample lowest_float32 negative_4x4 rois 4 4 1 1 1 2 0 0 0 0 0.
Proof.
  intros rois.
  assert (Hy : inject_Z 4 < sample_y rois 1 1 2 0 0 0 1) by (vm_compute; reflexivity).
  split; [exact Hy|]. split; [vm_compute; reflexivity|].
  apply (out_of_range_sample_counts_as_zero lowest_float32 negative_4x4 rois 4 4 1 1 1 2
           0 0 0 0 0 1 1).
  - vm_compute. split; [discriminate | reflexivity].
  - vm_compute. split; [discriminate | reflexivity].
  - right; right; left. exact Hy.
Defined.




(** ** Error handling *)






(** ** Further properties of the operator *)

(** X1.  The call succeeds exactly when the feature map is rank-4, the ROI
    batch is rank-3, [pooled_size] is an int or a sequence of two ints and
    neither pooled size is [0]; it then returns the tensor of shape
    [[num_img; num_roi; channel; pooled_size_h; pooled_size_w]] computed by
    [_sample].  With well-formed shapes and pooled sizes it raises the
    division error exactly when a pooled size is [0].  Nothing else about the
    arguments is checked. *)
Theorem roi_align_nchw_succeeds_iff (min_value : Q) (data rois : Tensor)
    (pooled_size : pooled_size_t) (spatial_scale : Q) (sample_ratio : Z)
    (out : Tensor) :
  (roi_align_nchw min_value data rois pooled_size spatial_scale sample_ratio = Ok out
   <->
   exists batch channel height width num_img num_roi last ph_ pw_,
     shape data = [batch; channel; height; width] /\
     shape rois = [num_img; num_roi; last] /\
     pooled_sizes pooled_size ph_ pw_ /\
     ph_ <> 0%Z /\ pw_ <> 0%Z /\
     out = compute [num_img; num_roi; channel; ph_; pw_]
             (_sample min_value data rois height width ph_ pw_
                spatial_scale sample_ratio))
  /\
  (roi_align_nchw min_value data rois pooled_size spatial_scale sample_ratio
   = Raise TVMError
   <->
   exists batch channel height width num_img num_roi last ph_ pw_,
     shape data = [batch; channel; height; width] /\
     shape rois = [num_img; num_roi; last] /\
     pooled_sizes pooled_size ph_ pw_ /\
     (ph_ = 0%Z \/ pw_ = 0%Z)).
Proof.
  split; split.
  - unfold roi_align_nchw, get_const_tuple, tvm_div_by_const. intros E.
    destruct (shape data) as [|b [|ch [|h [|w [|x sd]]]]]; try discriminate E.
    destruct (shape rois) as [|ni [|nr [|l [|x sr]]]]; try discriminate E.
    destruct pooled_size as [p | [|a [|b' [|x t]]]]; try discriminate E;
      simpl in E.
    + destruct (p =? 0)%Z eqn:Ep; simpl in E; [discriminate E|].
      injection E as E; subst out.
      apply Z.eqb_neq in Ep.
      exists b, ch, h, w, ni, nr, l, p, p.
      repeat (split; [reflexivity|]).
      split; [left; split; reflexivity|].
      split; [exact Ep|]. split; [exact Ep | reflexivity].
    + destruct (a =? 0)%Z eqn:Ea; simpl in E; [discriminate E|].
      destruct (b' =? 0)%Z eqn:Eb; simpl in E; [discriminate E|].
      injection E as E; subst out.
      apply Z.eqb_neq in Ea. apply Z.eqb_neq in Eb.
      exists b, ch, h, w, ni, nr, l, a, b'.
      repeat (split; [reflexivity|]).
      split; [right; reflexivity|].
      split; [exact Ea|]. split; [exact Eb | reflexivity].
  - intros [b [ch [h [w [ni [nr [l [ph_ [pw_ [Hd [Hr [Hp [Nh [Nw E]]]]]]]]]]]]]].
    subst out. eapply roi_align_nchw_ok; eassumption.
  - unfold roi_align_nchw, get_const_tuple, tvm_div_by_const. intros E.
    destruct (shape data) as [|b [|ch [|h [|w [|x sd]]]]]; try discriminate E.
    destruct (shape rois) as [|ni [|nr [|l [|x sr]]]]; try discriminate E.
    destruct pooled_size as [p | [|a [|b' [|x t]]]]; try discriminate E;
      simpl in E.
    + destruct (p =? 0)%Z eqn:Ep; simpl in E; [|discriminate E].
      apply Z.eqb_eq in Ep.
      exists b, ch, h, w, ni, nr, l, p, p.
      repeat (split; [reflexivity|]).
      split; [left; split; reflexivity | now left].
    + exists b, ch, h, w, ni, nr, l, a, b'.
      repeat (split; [reflexivity|]).
      split; [right; reflexivity|].
      destruct (a =? 0)%Z eqn:Ea; [apply Z.eqb_eq in Ea; now left|].
      simpl in E.
      destruct (b' =? 0)%Z eqn:Eb; [apply Z.eqb_eq in Eb; now right|].
      discriminate E.
  - intros [b [ch [h [w [ni [nr [l [ph_ [pw_ [Hd [Hr [Hp Hz]]]]]]]]]]]].
    eapply roi_align_nchw_div_by_zero; eassumption.
Qed.

(** X2.  Every [sample_ratio <= 0] selects the adaptive mode: the call
    returns what it returns for the default [-1]; in particular
    [sample_ratio = 0] does not mean "no samples". *)
Theorem nonpositive_sample_ratio_is_adaptive (min_value : Q) (data rois : Tensor)
    (pooled_size : pooled_size_t) (spatial_scale : Q) (sample_ratio : Z) :
  (sample_ratio <= 0)%Z ->
  roi_align_nchw min_value data rois pooled_size spatial_scale sample_ratio =
  roi_align_nchw min_value data rois pooled_size spatial_scale (-1).
Proof.
  intros Hr.
  assert (E : (sample_ratio >? 0)%Z = false) by lia.
  unfold roi_align_nchw, _sample, sample_y, sample_x, roi_bin_grid_h, roi_bin_grid_w.
  rewrite E. reflexivity.
Qed.

Lemma nonpositive_sample_ratio_is_adaptive_witness :
  (0 <= 0)%Z /\
  roi_align_nchw lowest_float32 ramp_4x4 (roi_batch [1; 1; 4]%Z [[0; 0; 3; 3]])
    (PoolInt 2) 1 0 =
  roi_align_nchw lowest_float32 ramp_4x4 (roi_batch [1; 1; 4]%Z [[0; 0; 3; 3]])
    (PoolInt 2) 1 (-1).
Proof.
  split; [lia|].
  apply (nonpositive_sample_ratio_is_adaptive lowest_float32 ramp_4x4
           (roi_batch [1; 1; 4]%Z [[0; 0; 3; 3]]) (PoolInt 2) 1 0).
  lia.
Defined.

(** X3.  The fixed and the adaptive path agree where their grids agree: for a
    ROI whose bins have [ceil(bin_h) = ceil(bin_w) = k] with [k > 0], [k]
    being an [int32] value as the constant [tvm.const(sample_ratio, 'int32')]
    of the fixed path is, the element computed with [sample_ratio = k] is the
    one computed in adaptive mode. *)
Theorem fixed_ratio_matches_adaptive (min_value : Q) (data rois : Tensor)
    (height width pooled_size_h pooled_size_w : Z) (spatial_scale : Q)
    (k n i c ph pw : Z) :
  (0 < k <= int32_max)%Z ->
  Qceiling (bin_h rois pooled_size_h spatial_scale n i) = k ->
  Qceiling (bin_w rois pooled_size_w spatial_scale n i) = k ->
  _sample min_value data rois height width pooled_size_h pooled_size_w
    spatial_scale k n i c ph pw =
  _sample min_value data rois height width pooled_size_h pooled_size_w
    spatial_scale (-1) n i c ph pw.
Proof.
  intros [Hk Hm] Hh Hw.
  assert (Hf : fits_int32 k) by (apply fits_int32_pos; lia).
  assert (Gh : roi_bin_grid_h rois pooled_size_h spatial_scale (-1) n i =
               roi_bin_grid_h rois pooled_size_h spatial_scale k n i).
  { rewrite (grid_h_fixed rois pooled_size_h spatial_scale k n i Hk).
    rewrite grid_h_adaptive; [exact Hh | lia | now rewrite Hh]. }
  assert (Gw : roi_bin_grid_w rois pooled_size_w spatial_scale (-1) n i =
               roi_bin_grid_w rois pooled_size_w spatial_scale k n i).
  { rewrite (grid_w_fixed rois pooled_size_w spatial_scale k n i Hk).
    rewrite grid_w_adaptive; [exact Hw | lia | now rewrite Hw]. }
  unfold _sample, sample_y, sample_x. rewrite Gh, Gw. reflexivity.
Qed.

(** A [3 x 3] ROI pooled to [2 x 2]: the bins are [3/2] wide, so the adaptive
    grid is [2 x 2], as with [sample_ratio = 2]. *)
Lemma fixed_ratio_matches_adaptive_witness :
  let rois := roi_batch [1; 1; 4]%Z [[0; 0; 3; 3]] in
  (0 < 2 <= int32_max)%Z /\ Qceiling (bin_h rois 2 1 0 0) = 2%Z /\
  _sample lowest_float32 ramp_4x4 rois 4 4 2 2 1 2 0 0 0 1 1 =
  _sample lowest_float32 ramp_4x4 rois 4 4 2 2 1 (-1) 0 0 0 1 1.
Proof.
  intros rois.
  assert (Hk : (0 < 2 <= int32_max)%Z) by (split; [reflexivity | discriminate]).
  split; [exact Hk|]. split; [reflexivity|].
  apply (fixed_ratio_matches_adaptive lowest_float32 ramp_4x4 rois 4 4 2 2 1
           2 0 0 0 1 1); [exact Hk | reflexivity | reflexivity].
Defined.

Lemma Qltb_ge (x y : Q) : y <= x -> Qltb x y = false.
Proof.
  intros H. destruct (Qltb x y) eqn:E; [|reflexivity].
  apply Qltb_lt in E. exfalso. exact (Qlt_not_le _ _ E H).
Qed.

Lemma Qmax_zero_clamp (y : Q) : (y < 0 /\ Qmax y 0 = 0) \/ (0 <= y /\ Qmax y 0 = y).
Proof.
  unfold Qmax, GenericMinMax.gmax. destruct (Qcompare y 0) eqn:E.
  - right. apply Qeq_alt in E. split; [lra | reflexivity].
  - left. apply Qlt_alt in E. split; [exact E | reflexivity].
  - right. apply Qgt_alt in E. split; [lra | reflexivity].
Qed.

(** X4.  On a map of non-negative sizes, a coordinate in the band [[-1, 0)]
    is treated as [0]: for [y >= -1] and [x >= -1] the sampler's value at
    [(y, x)] is its value at [(max(y, 0), max(x, 0))]. *)
Theorem bilinear_clamps_negative_band (data : Tensor) (height width i c : Z) (y x : Q) :
  (0 <= height)%Z -> (0 <= width)%Z -> -1 <= y -> -1 <= x ->
  _bilinear data height width i c y x =
  _bilinear data height width i c (Qmax y 0) (Qmax x 0).
Proof.
  intros Hh Hw Hy Hx.
  rewrite Zle_Qle in Hh, Hw. change (inject_Z 0) with 0 in Hh, Hw.
  destruct (Qmax_zero_clamp y) as [[Ly Ey] | [Ly Ey]];
  destruct (Qmax_zero_clamp x) as [[Lx Ex] | [Lx Ex]];
    rewrite Ey, Ex; try reflexivity; unfold _bilinear;
    rewrite ?Ey, ?Ex; change (Qmax 0 0) with 0;
    rewrite (Qltb_ge y (-1)) by lra; rewrite (Qltb_ge x (-1)) by lra;
    rewrite ?(Qltb_ge (inject_Z height) y) by lra;
    rewrite ?(Qltb_ge (inject_Z width) x) by lra;
    rewrite ?(Qltb_ge (inject_Z height) 0) by lra;
    rewrite ?(Qltb_ge (inject_Z width) 0) by lra;
    reflexivity.
Qed.

Lemma bilinear_clamps_negative_band_witness :
  -1 <= -(1 # 2) /\ -1 <= -1 /\
  _bilinear ramp_4x4 4 4 0 0 (-(1 # 2)) (-1) =
  _bilinear ramp_4x4 4 4 0 0 (Qmax (-(1 # 2)) 0) (Qmax (-1) 0).
Proof.
  assert (Hy : -1 <= -(1 # 2)) by (intros H; discriminate H).
  assert (Hx : -1 <= -1) by (intros H; discriminate H).
  split; [exact Hy|]. split; [exact Hx|].
  apply (bilinear_clamps_negative_band ramp_4x4 4 4 0 0 (-(1 # 2)) (-1));
    [lia | lia | exact Hy | exact Hx].
Defined.

(** X5.  With positive pooled sizes every sample point of a bin lies strictly
    inside that bin: strictly between the bin start and the bin start plus
    the bin size, in both axes. *)
Theorem sample_point_inside_bin (rois : Tensor) (pooled_size_h pooled_size_w : Z)
    (spatial_scale : Q) (sample_ratio n i ph pw rh rw : Z) :
  (0 < pooled_size_h)%Z -> (0 < pooled_size_w)%Z ->
  (0 <= rh < roi_bin_grid_h rois pooled_size_h spatial_scale sample_ratio n i)%Z ->
  (0 <= rw < roi_bin_grid_w rois pooled_size_w spatial_scale sample_ratio n i)%Z ->
  (bin_start_h rois pooled_size_h spatial_scale n i ph
   < sample_y rois pooled_size_h spatial_scale sample_ratio n i ph rh /\
   sample_y rois pooled_size_h spatial_scale sample_ratio n i ph rh
   < bin_start_h rois pooled_size_h spatial_scale n i ph
     + bin_h rois pooled_size_h spatial_scale n i)
  /\
  (bin_start_w rois pooled_size_w spatial_scale n i pw
   < sample_x rois pooled_size_w spatial_scale sample_ratio n i pw rw /\
   sample_x rois pooled_size_w spatial_scale sample_ratio n i pw rw
   < bin_start_w rois pooled_size_w spatial_scale n i pw
     + bin_w rois pooled_size_w spatial_scale n i).
Proof.
  intros Hh Hw Hrh Hrw.
  pose proof (bin_h_pos rois pooled_size_h spatial_scale n i Hh) as Bh.
  pose proof (bin_w_pos rois pooled_size_w spatial_scale n i Hw) as Bw.
  destruct (grid_offset_bounds _ _ _ Bh Hrh) as [H1 H2].
  destruct (grid_offset_bounds _ _ _ Bw Hrw) as [W1 W2].
  unfold sample_y, sample_x. split; split; lra.
Qed.

Lemma sample_point_inside_bin_witness :
  let rois := roi_batch [1; 1; 4]%Z [[0; 0; 3; 5]] in
  (0 < 2)%Z /\
  bin_start_h rois 2 1 0 0 1 < sample_y rois 2 1 (-1) 0 0 1 2 /\
  sample_y rois 2 1 (-1) 0 0 1 2 < bin_start_h rois 2 1 0 0 1 + bin_h rois 2 1 0 0.
Proof.
  intros rois. split; [lia|].
  assert (Gh : (0 <= 2 < roi_bin_grid_h rois 2 1 (-1) 0 0)%Z)
    by (vm_compute; split; [discriminate | reflexivity]).
  assert (Gw : (0 <= 1 < roi_bin_grid_w rois 2 1 (-1) 0 0)%Z)
    by (vm_compute; split; [discriminate | reflexivity]).
  destruct (sample_point_inside_bin rois 2 2 1 (-1) 0 0 1 1 2 1
              eq_refl eq_refl Gh Gw) as [[A B] _].
  split; [exact A | exact B].
Defined.

(** X6.  The bins tile the floored ROI extent: the first bin starts at the
    scaled ROI start, each bin starts where the previous one ends, and, for a
    pooled size other than [0], the bin after the last starts at the ROI
    start plus the extent. *)
Theorem bins_tile_roi_extent (rois : Tensor) (pooled_size_h pooled_size_w : Z)
    (spatial_scale : Q) (n i : Z) :
  (bin_start_h rois pooled_size_h spatial_scale n i 0
     == roi_start_h rois spatial_scale n i /\
   bin_start_w rois pooled_size_w spatial_scale n i 0
     == roi_start_w rois spatial_scale n i)
  /\
  (forall ph,
     bin_start_h rois pooled_size_h spatial_scale n i (ph + 1)
     == bin_start_h rois pooled_size_h spatial_scale n i ph
        + bin_h rois pooled_size_h spatial_scale n i)
  /\
  (forall pw,
     bin_start_w rois pooled_size_w spatial_scale n i (pw + 1)
     == bin_start_w rois pooled_size_w spatial_scale n i pw
        + bin_w rois pooled_size_w spatial_scale n i)
  /\
  (pooled_size_h <> 0%Z ->
   bin_start_h rois pooled_size_h spatial_scale n i pooled_size_h
   == roi_start_h rois spatial_scale n i + roi_h rois spatial_scale n i)
  /\
  (pooled_size_w <> 0%Z ->
   bin_start_w rois pooled_size_w spatial_scale n i pooled_size_w
   == roi_start_w rois spatial_scale n i + roi_w rois spatial_scale n i).
Proof.
  unfold bin_start_h, bin_start_w.
  split; [split; change (inject_Z 0) with 0; ring|].
  split; [intros ph; rewrite inject_Z_plus; change (inject_Z 1) with 1; ring|].
  split; [intros pw; rewrite inject_Z_plus; change (inject_Z 1) with 1; ring|].
  split; intros Hp.
  - unfold bin_h. rewrite Qmult_div_r; [reflexivity|].
    intros E. apply Hp. now apply (proj1 (inject_Z_injective _ 0%Z)).
  - unfold bin_w. rewrite Qmult_div_r; [reflexivity|].
    intros E. apply Hp. now apply (proj1 (inject_Z_injective _ 0%Z)).
Qed.

Lemma bins_tile_roi_extent_witness :
  let rois := roi_batch [1; 1; 4]%Z [[1; 2; 4; 7]] in
  (7 <> 0)%Z /\
  bin_start_h rois 7 (1 # 2) 0 0 7 == roi_start_h rois (1 # 2) 0 0 + roi_h rois (1 # 2) 0 0.
Proof.
  intros rois. split; [lia|].
  destruct (bins_tile_roi_extent rois 7 7 (1 # 2) 0 0) as [_ [_ [_ [T _]]]].
  apply T. lia.
Defined.

(** X7.  The sample points of a bin are evenly spaced and centred in it: with
    [step = bin / (grid + 1)], consecutive points are [step] apart, the first
    lies [step] after the bin start and, for a grid of at least one point,
    the last lies [step] before the bin end. *)
Theorem sample_points_evenly_spaced (rois : Tensor) (pooled_size_h pooled_size_w : Z)
    (spatial_scale : Q) (sample_ratio n i ph pw : Z) :
  let grid_h := roi_bin_grid_h rois pooled_size_h spatial_scale sample_ratio n i in
  let grid_w := roi_bin_grid_w rois pooled_size_w spatial_scale sample_ratio n i in
  let b_h := bin_h rois pooled_size_h spatial_scale n i in
  let b_w := bin_w rois pooled_size_w spatial_scale n i in
  let y := sample_y rois pooled_size_h spatial_scale sample_ratio n i ph in
  let x := sample_x rois pooled_size_w spatial_scale sample_ratio n i pw in
  let step_h := b_h / (inject_Z grid_h + 1) in
  let step_w := b_w / (inject_Z grid_w + 1) in
  (forall rh, y (rh + 1)%Z - y rh == step_h)
  /\ (forall rw, x (rw + 1)%Z - x rw == step_w)
  /\ y 0%Z - bin_start_h rois pooled_size_h spatial_scale n i ph == step_h
  /\ x 0%Z - bin_start_w rois pooled_size_w spatial_scale n i pw == step_w
  /\ ((1 <= grid_h)%Z ->
      bin_start_h rois pooled_size_h spatial_scale n i ph + b_h - y (grid_h - 1)%Z
      == step_h)
  /\ ((1 <= grid_w)%Z ->
      bin_start_w rois pooled_size_w spatial_scale n i pw + b_w - x (grid_w - 1)%Z
      == step_w).
Proof.
  cbv zeta. unfold sample_y, sample_x.
  set (gh := roi_bin_grid_h rois pooled_size_h spatial_scale sample_ratio n i).
  set (gw := roi_bin_grid_w rois pooled_size_w spatial_scale sample_ratio n i).
  set (bh := bin_h rois pooled_size_h spatial_scale n i).
  set (bw := bin_w rois pooled_size_w spatial_scale n i).
  set (sh := bin_start_h rois pooled_size_h spatial_scale n i ph).
  set (sw := bin_start_w rois pooled_size_w spatial_scale n i pw).
  split; [intros rh; rewrite inject_Z_plus; change (inject_Z 1) with 1;
          unfold Qdiv; ring|].
  split; [intros rw; rewrite inject_Z_plus; change (inject_Z 1) with 1;
          unfold Qdiv; ring|].
  split; [change (inject_Z 0) with 0; unfold Qdiv; ring|].
  split; [change (inject_Z 0) with 0; unfold Qdiv; ring|].
  split; intros Hg; rewrite Zle_Qle in Hg; change (inject_Z 1) with 1 in Hg;
    unfold Z.sub; rewrite inject_Z_plus; change (inject_Z (- (1))) with (- (1));
    field; lra.
Qed.

Lemma sample_points_evenly_spaced_witness :
  let rois := roi_batch [1; 1; 4]%Z [[0; 0; 3; 5]] in
  (1 <= roi_bin_grid_h rois 2 1 (-1) 0 0)%Z /\
  bin_start_h rois 2 1 0 0 1 + bin_h rois 2 1 0 0
  - sample_y rois 2 1 (-1) 0 0 1 (roi_bin_grid_h rois 2 1 (-1) 0 0 - 1)
  == bin_h rois 2 1 0 0 / (inject_Z (roi_bin_grid_h rois 2 1 (-1) 0 0) + 1).
Proof.
  intros rois.
  assert (G : (1 <= roi_bin_grid_h rois 2 1 (-1) 0 0)%Z) by (vm_compute; discriminate).
  split; [exact G|].
  destruct (sample_points_evenly_spaced rois 2 2 1 (-1) 0 0 1 1)
    as [_ [_ [_ [_ [T _]]]]].
  exact (T G).
Defined.

(** X8.  In adaptive mode with positive pooled sizes, for a ROI whose
    rounded-up bin sizes fit [int32] ([ceil(bin) <= 2147483647]), the grid
    count is the bin size rounded up, [bin <= grid < bin + 1], so
    neighbouring sample points are less than one feature-map unit apart. *)
Theorem adaptive_grid_step_below_one (rois : Tensor) (pooled_size_h pooled_size_w : Z)
    (spatial_scale : Q) (sample_ratio n i : Z) :
  (sample_ratio <= 0)%Z -> (0 < pooled_size_h)%Z -> (0 < pooled_size_w)%Z ->
  (Qceiling (bin_h rois pooled_size_h spatial_scale n i) <= int32_max)%Z ->
  (Qceiling (bin_w rois pooled_size_w spatial_scale n i) <= int32_max)%Z ->
  let grid_h := roi_bin_grid_h rois pooled_size_h spatial_scale sample_ratio n i in
  let grid_w := roi_bin_grid_w rois pooled_size_w spatial_scale sample_ratio n i in
  let b_h := bin_h rois pooled_size_h spatial_scale n i in
  let b_w := bin_w rois pooled_size_w spatial_scale n i in
  (b_h <= inject_Z grid_h /\ inject_Z grid_h < b_h + 1 /\
   b_h / (inject_Z grid_h + 1) < 1)
  /\
  (b_w <= inject_Z grid_w /\ inject_Z grid_w < b_w + 1 /\
   b_w / (inject_Z grid_w + 1) < 1).
Proof.
  intros Hr Hh Hw Fh Fw. cbv zeta.
  pose proof (bin_h_pos rois pooled_size_h spatial_scale n i Hh) as Bh.
  pose proof (bin_w_pos rois pooled_size_w spatial_scale n i Hw) as Bw.
  rewrite (grid_h_adaptive rois pooled_size_h spatial_scale sample_ratio n i Hr)
    by (apply fits_int32_pos; split; [now apply Qceiling_pos | exact Fh]).
  rewrite (grid_w_adaptive rois pooled_size_w spatial_scale sample_ratio n i Hr)
    by (apply fits_int32_pos; split; [now apply Qceiling_pos | exact Fw]).
  set (bh := bin_h rois pooled_size_h spatial_scale n i) in *.
  set (bw := bin_w rois pooled_size_w spatial_scale n i) in *.
  pose proof (Qle_ceiling bh) as Ch. pose proof (Qceiling_lt bh) as Ch'.
  pose proof (Qle_ceiling bw) as Cw. pose proof (Qceiling_lt bw) as Cw'.
  unfold Z.sub in Ch', Cw'. rewrite inject_Z_plus in Ch', Cw'.
  change (inject_Z (- (1))) with (- (1)) in Ch', Cw'.
  split; (split; [assumption|]); (split; [lra|]);
    (apply Qlt_shift_div_r; lra).
Qed.

Lemma adaptive_grid_step_below_one_witness :
  let rois := roi_batch [1; 1; 4]%Z [[0; 0; 30; 50]] in
  (-1 <= 0)%Z /\ (0 < 7)%Z /\
  (Qceiling (bin_h rois 7 (1 # 4) 0 0) <= int32_max)%Z /\
  bin_h rois 7 (1 # 4) 0 0 / (inject_Z (roi_bin_grid_h rois 7 (1 # 4) (-1) 0 0) + 1) < 1.
Proof.
  intros rois.
  assert (Fh : (Qceiling (bin_h rois 7 (1 # 4) 0 0) <= int32_max)%Z)
    by (vm_compute; discriminate).
  assert (Fw : (Qceiling (bin_w rois 7 (1 # 4) 0 0) <= int32_max)%Z)
    by (vm_compute; discriminate).
  split; [lia|]. split; [lia|]. split; [exact Fh|].
  destruct (adaptive_grid_step_below_one rois 7 7 (1 # 4) (-1) 0 0)
    as [[_ [_ T]] _]; [lia | lia | lia | exact Fh | exact Fw | exact T].
Defined.

Lemma Qceiling_unit (x : Q) : 0 < x -> x <= 1 -> Qceiling x = 1%Z.
Proof.
  intros H0 H1. pose proof (Qceiling_pos x H0) as L.
  pose proof (Qceiling_resp_le x 1 H1) as U.
  change 1 with (inject_Z 1) in U. rewrite Qceiling_Z in U. lia.
Qed.

(** X9.  A bin with a single sample point is its bilinear sample at the bin
    centre, the reduction being over one value.  This is the case for
    [sample_ratio = 1] and, in adaptive mode with positive pooled sizes, for
    every ROI whose floored extents do not exceed the pooled sizes (every
    degenerate ROI among them). *)
Theorem single_sample_bin (min_value : Q) (data rois : Tensor)
    (height width pooled_size_h pooled_size_w : Z) (spatial_scale : Q)
    (sample_ratio n i c ph pw : Z) :
  sample_ratio = 1%Z \/
  ((sample_ratio <= 0)%Z /\ (0 < pooled_size_h)%Z /\ (0 < pooled_size_w)%Z /\
   roi_h rois spatial_scale n i <= inject_Z pooled_size_h /\
   roi_w rois spatial_scale n i <= inject_Z pooled_size_w) ->
  let y := sample_y rois pooled_size_h spatial_scale sample_ratio n i ph 0 in
  let x := sample_x rois pooled_size_w spatial_scale sample_ratio n i pw 0 in
  _sample min_value data rois height width pooled_size_h pooled_size_w
    spatial_scale sample_ratio n i c ph pw
  = _bilinear data height width n c y x
  /\ y == bin_start_h rois pooled_size_h spatial_scale n i ph
          + bin_h rois pooled_size_h spatial_scale n i / 2
  /\ x == bin_start_w rois pooled_size_w spatial_scale n i pw
          + bin_w rois pooled_size_w spatial_scale n i / 2.
Proof.
  intros H. cbv zeta.
  assert (G : roi_bin_grid_h rois pooled_size_h spatial_scale sample_ratio n i = 1%Z /\
              roi_bin_grid_w rois pooled_size_w spatial_scale sample_ratio n i = 1%Z).
  { destruct H as [H | [Hr [Hh [Hw [Eh Ew]]]]].
    - subst sample_ratio. split; reflexivity.
    - pose proof (bin_h_pos rois pooled_size_h spatial_scale n i Hh) as Bh.
      pose proof (bin_w_pos rois pooled_size_w spatial_scale n i Hw) as Bw.
      rewrite Zlt_Qlt in Hh, Hw. change (inject_Z 0) with 0 in Hh, Hw.
      assert (Ch : Qceiling (bin_h rois pooled_size_h spatial_scale n i) = 1%Z).
      { apply Qceiling_unit; [exact Bh|].
        unfold bin_h. apply Qle_shift_div_r; [exact Hh | lra]. }
      assert (Cw : Qceiling (bin_w rois pooled_size_w spatial_scale n i) = 1%Z).
      { apply Qceiling_unit; [exact Bw|].
        unfold bin_w. apply Qle_shift_div_r; [exact Hw | lra]. }
      assert (F1 : fits_int32 1) by (split; discriminate).
      split.
      + rewrite grid_h_adaptive; [exact Ch | exact Hr | now rewrite Ch].
      + rewrite grid_w_adaptive; [exact Cw | exact Hr | now rewrite Cw]. }
  destruct G as [Gh Gw]. split; [|split].
  - unfold _sample. rewrite Gh, Gw. reflexivity.
  - unfold sample_y. rewrite Gh. change (inject_Z 0) with 0.
    change (inject_Z 1) with 1. field.
  - unfold sample_x. rewrite Gw. change (inject_Z 0) with 0.
    change (inject_Z 1) with 1. field.
Qed.

(** A degenerate ROI pooled to [2 x 2] in adaptive mode. *)
Lemma single_sample_bin_witness :
  let rois := roi_batch [1; 1; 4]%Z [[2; 1; 2; 1]] in
  roi_h rois 1 0 0 <= inject_Z 2 /\
  _sample lowest_float32 ramp_4x4 rois 4 4 2 2 1 (-1) 0 0 0 1 1
  = _bilinear ramp_4x4 4 4 0 0 (sample_y rois 2 1 (-1) 0 0 1 0)
      (sample_x rois 2 1 (-1) 0 0 1 0).
Proof.
  intros rois.
  assert (Eh : roi_h rois 1 0 0 <= inject_Z 2) by (intros H; discriminate H).
  assert (Ew : roi_w rois 1 0 0 <= inject_Z 2) by (intros H; discriminate H).
  split; [exact Eh|].
  apply (single_sample_bin lowest_float32 ramp_4x4 rois 4 4 2 2 1 (-1) 0 0 0 1 1).
  right. repeat split; try lia; assumption.
Defined.

Lemma maximum_unique (v w : Q) (xs ys : list Q) :
  (forall s, In s xs <-> In s ys) -> is_maximum v xs -> is_maximum w ys -> v == w.
Proof.
  intros Hs [Hv Uv] [Hw Uw]. rewrite Forall_forall in Uv, Uw.
  apply Qle_antisym.
  - apply Uw. now apply Hs.
  - apply Uv. now apply Hs.
Qed.

(** X10.  The value of an output element does not depend on the order in
    which the samples of its bin are reduced, nor on repetitions: reducing
    any list with the same members as the bin's samples gives an equal value
    (the maximum is order-independent). *)
Theorem reduction_order_irrelevant (min_value : Q) (data rois : Tensor)
    (height width pooled_size_h pooled_size_w : Z) (spatial_scale : Q)
    (sample_ratio n i c ph pw : Z) (xs : list Q) :
  (forall s, In s xs <->
             In s (bin_samples data rois height width pooled_size_h pooled_size_w
                     spatial_scale sample_ratio n i c ph pw)) ->
  comm_reducer Qmax min_value xs ==
  _sample min_value data rois height width pooled_size_h pooled_size_w
    spatial_scale sample_ratio n i c ph pw.
Proof.
  intros Hs. rewrite sample_reduces_bin.
  set (ys := bin_samples data rois height width pooled_size_h pooled_size_w
               spatial_scale sample_ratio n i c ph pw) in *.
  destruct xs as [|x xs].
  - destruct ys as [|y ys]; [reflexivity|].
    exfalso. apply (proj2 (Hs y)). now left.
  - assert (Hy : ys <> []).
    { intros E. rewrite E in Hs. apply (proj1 (Hs x)). now left. }
    apply (maximum_unique _ _ (x :: xs) ys Hs);
      apply max_reducer_is_maximum; [discriminate | exact Hy].
Qed.

(** The samples of a bin reduced with the width axis outermost. *)
Lemma reduction_order_irrelevant_witness :
  let rois := roi_batch [1; 1; 4]%Z [[0; 0; 3; 3]] in
  tvm_max lowest_float32
    (fun rw rh => _bilinear ramp_4x4 4 4 0 0 (sample_y rois 1 1 2 0 0 0 rh)
                    (sample_x rois 1 1 2 0 0 0 rw))
    (reduce_axis 0 (roi_bin_grid_w rois 1 1 2 0 0))
    (reduce_axis 0 (roi_bin_grid_h rois 1 1 2 0 0))
  == _sample lowest_float32 ramp_4x4 rois 4 4 1 1 1 2 0 0 0 0 0.
Proof.
  intros rois. unfold tvm_max.
  apply (reduction_order_irrelevant lowest_float32 ramp_4x4 rois 4 4 1 1 1 2 0 0 0 0 0).
  intros s. unfold bin_samples. rewrite !reduce_domain_In.
  split; intros [a [b [Ha [Hb E]]]]; exists b, a; auto.
Defined.

(** X13.  With positive pooled sizes no sample point of a valid bin leaves
    the floored ROI box: every sample coordinate lies strictly between the
    scaled ROI start and that start plus the floored extent, in both axes. *)
Theorem samples_inside_roi_box (rois : Tensor) (pooled_size_h pooled_size_w : Z)
    (spatial_scale : Q) (sample_ratio n i ph pw rh rw : Z) :
  (0 < pooled_size_h)%Z -> (0 < pooled_size_w)%Z ->
  (0 <= ph < pooled_size_h)%Z -> (0 <= pw < pooled_size_w)%Z ->
  (0 <= rh < roi_bin_grid_h rois pooled_size_h spatial_scale sample_ratio n i)%Z ->
  (0 <= rw < roi_bin_grid_w rois pooled_size_w spatial_scale sample_ratio n i)%Z ->
  (roi_start_h rois spatial_scale n i
   < sample_y rois pooled_size_h spatial_scale sample_ratio n i ph rh /\
   sample_y rois pooled_size_h spatial_scale sample_ratio n i ph rh
   < roi_start_h rois spatial_scale n i + roi_h rois spatial_scale n i)
  /\
  (roi_start_w rois spatial_scale n i
   < sample_x rois pooled_size_w spatial_scale sample_ratio n i pw rw /\
   sample_x rois pooled_size_w spatial_scale sample_ratio n i pw rw
   < roi_start_w rois spatial_scale n i + roi_w rois spatial_scale n i).
Proof.
  intros Hh Hw Hph Hpw Hrh Hrw. split.
  - now apply sample_y_in_roi.
  - now apply sample_x_in_roi.
Qed.

(** The last sample of the last bin of a degenerate ROI scaled by [1/16]. *)
Lemma samples_inside_roi_box_witness :
  let rois := roi_batch [1; 1; 4]%Z [[32; 48; 32; 48]] in
  (0 <= 6 < 7)%Z /\
  roi_start_h rois (1 # 16) 0 0 < sample_y rois 7 (1 # 16) (-1) 0 0 6 0 /\
  sample_y rois 7 (1 # 16) (-1) 0 0 6 0
  < roi_start_h rois (1 # 16) 0 0 + roi_h rois (1 # 16) 0 0.
Proof.
  intros rois. split; [lia|].
  assert (Gh : (0 <= 0 < roi_bin_grid_h rois 7 (1 # 16) (-1) 0 0)%Z)
    by (vm_compute; split; [discriminate | reflexivity]).
  assert (Gw : (0 <= 0 < roi_bin_grid_w rois 7 (1 # 16) (-1) 0 0)%Z)
    by (vm_compute; split; [discriminate | reflexivity]).
  destruct (samples_inside_roi_box rois 7 7 (1 # 16) (-1) 0 0 6 6 0 0) as [[A B] _];
    try lia; try assumption.
  split; [exact A | exact B].
Defined.

(** ** The parameter split of the deployment script *)

Module DeployRcnnFacts.

Import String DeployRcnn.

Section Facts.

Variable NDArray : Type.

Let dict : Type := DeployRcnn.dict NDArray.

(** *** Strings *)

Lemma startswith_split (p s : String.string) :
  startswith s p = true -> s = String.append p (slice_from (String.length p) s).
Proof.
  unfold startswith. revert s. induction p as [|a p IH]; intros s H.
  - reflexivity.
  - destruct s as [|b s]; simpl in H; [discriminate H|].
    destruct (Ascii.ascii_dec a b) as [E | N]; [|discriminate H].
    subst b. simpl. f_equal. now apply IH.
Qed.

Lemma startswith_append (p s : String.string) :
  startswith (String.append p s) p = true.
Proof.
  unfold startswith. induction p as [|a p IH]; simpl.
  - now destruct s.
  - destruct (Ascii.ascii_dec a a) as [_ | N]; [exact IH | now elim N].
Qed.

Lemma slice_from_append (p s : String.string) :
  slice_from (String.length p) (String.append p s) = s.
Proof. induction p as [|a p IH]; simpl; [reflexivity | exact IH]. Qed.

(** *** Dicts *)

Lemma dict_get_set_same (d : dict) (k : String.string) (v : NDArray) :
  dict_get (dict_set d k v) k = Some v.
Proof.
  induction d as [|[k' v'] d IH]; simpl.
  - now rewrite String.eqb_refl.
  - destruct (String.eqb k' k) eqn:E; simpl; rewrite E; [reflexivity | exact IH].
Qed.

Lemma dict_get_set_other (d : dict) (k k' : String.string) (v : NDArray) :
  k <> k' -> dict_get (dict_set d k v) k' = dict_get d k'.
Proof.
  intros N. induction d as [|[k0 v0] d IH]; simpl.
  - apply String.eqb_neq in N. now rewrite N.
  - destruct (String.eqb k0 k) eqn:E; simpl.
    + apply String.eqb_eq in E. subst k0.
      apply String.eqb_neq in N. now rewrite N.
    + now rewrite IH.
Qed.

Lemma dict_get_absent (d : dict) (k : String.string) :
  ~ In k (keys d) -> dict_get d k = None.
Proof.
  induction d as [|[k' v'] d IH]; simpl; intros N; [reflexivity|].
  destruct (String.eqb k' k) eqn:E.
  - apply String.eqb_eq in E. elim N. now left.
  - apply IH. intros Hin. apply N. now right.
Qed.

Lemma dict_get_present (d : dict) (k : String.string) :
  In k (keys d) -> exists v, dict_get d k = Some v.
Proof.
  induction d as [|[k' v'] d IH]; simpl; intros Hin; [contradiction|].
  destruct (String.eqb k' k) eqn:E; [now exists v'|].
  destruct Hin as [Hk | Hin]; [|now apply IH].
  apply String.eqb_neq in E. contradiction.
Qed.

Lemma dict_get_entry (d : dict) (k : String.string) (v : NDArray) :
  NoDup (keys d) -> In (k, v) d -> dict_get d k = Some v.
Proof.
  induction d as [|[k' v'] d IH]; simpl; intros Hn Hin; [contradiction|].
  inversion Hn as [|? ? Hk Hn']; subst.
  destruct Hin as [E | Hin].
  - injection E as -> ->. now rewrite String.eqb_refl.
  - destruct (String.eqb k' k) eqn:E; [|now apply IH].
    apply String.eqb_eq in E. subst k'. elim Hk.
    change k with (fst (k, v)). now apply in_map.
Qed.

Lemma dict_set_fresh (d : dict) (k : String.string) (v : NDArray) :
  ~ In k (keys d) -> dict_set d k v = (d ++ [(k, v)])%list.
Proof.
  induction d as [|[k' v'] d IH]; simpl; intros N; [reflexivity|].
  destruct (String.eqb k' k) eqn:E.
  - apply String.eqb_eq in E. elim N. now left.
  - f_equal. apply IH. intros Hin. apply N. now right.
Qed.

(** *** One iteration *)

Lemma fold_split_none (params : dict) (ks : list String.string) :
  fold_left (split_step params) ks None = None.
Proof. induction ks as [|k ks IH]; simpl; [reflexivity | exact IH]. Qed.

Lemma split_step_arg (params arg aux arg1 aux1 : dict) (k s : String.string) :
  split_step params (Some (arg, aux)) k = Some (arg1, aux1) ->
  dict_get arg1 s =
  if String.eqb (String.append "arg:" s) k
  then dict_get params (String.append "arg:" s) else dict_get arg s.
Proof.
  unfold split_step. intros S.
  destruct (String.eqb (String.append "arg:" s) k) eqn:E.
  - apply String.eqb_eq in E. subst k.
    rewrite (startswith_append "arg:" s) in S.
    destruct (dict_get params (String.append "arg:" s)) as [v|]; [|discriminate].
    injection S as <- _. apply dict_get_set_same.
  - apply String.eqb_neq in E.
    destruct (startswith k "arg:") eqn:A.
    + destruct (dict_get params k) as [v|]; [|discriminate].
      injection S as <- _. apply dict_get_set_other.
      intros Hs. apply E. rewrite <- Hs. symmetry.
      exact (startswith_split "arg:" k A).
    + destruct (startswith k "aux:"); [destruct (dict_get params k)|];
        try discriminate; now injection S as <- _.
Qed.

Lemma split_step_aux (params arg aux arg1 aux1 : dict) (k s : String.string) :
  split_step params (Some (arg, aux)) k = Some (arg1, aux1) ->
  dict_get aux1 s =
  if String.eqb (String.append "aux:" s) k
  then dict_get params (String.append "aux:" s) else dict_get aux s.
Proof.
  unfold split_step. intros S.
  destruct (String.eqb (String.append "aux:" s) k) eqn:E.
  - apply String.eqb_eq in E. subst k.
    change (startswith (String.append "aux:" s) "arg:") with false in S.
    rewrite (startswith_append "aux:" s) in S.
    destruct (dict_get params (String.append "aux:" s)) as [v|]; [|discriminate].
    injection S as _ <-. apply dict_get_set_same.
  - apply String.eqb_neq in E.
    destruct (startswith k "arg:") eqn:A.
    + destruct (dict_get params k) as [v|]; [|discriminate].
      now injection S as _ <-.
    + destruct (startswith k "aux:") eqn:B.
      * destruct (dict_get params k) as [v|]; [|discriminate].
        injection S as _ <-. apply dict_get_set_other.
        intros Hs. apply E. rewrite <- Hs. symmetry.
        exact (startswith_split "aux:" k B).
      * now injection S as _ <-.
Qed.

(** *** The loop *)

Lemma fold_split_total (params : dict) (ks : list String.string) :
  (forall k, In k ks -> In k (keys params)) ->
  forall arg aux, exists arg' aux',
    fold_left (split_step params) ks (Some (arg, aux)) = Some (arg', aux').
Proof.
  induction ks as [|k ks IH]; intros Hk arg aux; simpl.
  - now exists arg, aux.
  - destruct (dict_get_present params k (Hk k (or_introl eq_refl))) as [v G].
    assert (Hk' : forall k', In k' ks -> In k' (keys params))
      by (intros k' Hin; apply Hk; now right).
    rewrite G.
    destruct (startswith k "arg:"); [apply (IH Hk')|].
    destruct (startswith k "aux:"); apply (IH Hk').
Qed.

Lemma fold_split_lookup (params : dict) (ks : list String.string) :
  forall arg aux arg' aux',
    fold_left (split_step params) ks (Some (arg, aux)) = Some (arg', aux') ->
    forall s,
      dict_get arg' s =
        (if existsb (String.eqb (String.append "arg:" s)) ks
         then dict_get params (String.append "arg:" s) else dict_get arg s) /\
      dict_get aux' s =
        (if existsb (String.eqb (String.append "aux:" s)) ks
         then dict_get params (String.append "aux:" s) else dict_get aux s).
Proof.
  induction ks as [|k ks IH]; intros arg aux arg' aux' F s.
  - simpl in *. now injection F as <- <-.
  - cbn [fold_left] in F.
    destruct (split_step params (Some (arg, aux)) k) as [[arg1 aux1]|] eqn:S;
      [|rewrite fold_split_none in F; discriminate].
    destruct (IH _ _ _ _ F s) as [Ha Hx].
    rewrite (split_step_arg _ _ _ _ _ _ s S) in Ha.
    rewrite (split_step_aux _ _ _ _ _ _ s S) in Hx.
    cbn [existsb]. split.
    + rewrite Ha. destruct (String.eqb (String.append "arg:" s) k);
        destruct (existsb (String.eqb (String.append "arg:" s)) ks); reflexivity.
    + rewrite Hx. destruct (String.eqb (String.append "aux:" s) k);
        destruct (existsb (String.eqb (String.append "aux:" s)) ks); reflexivity.
Qed.

Lemma existsb_keys_absent (d : dict) (k : String.string) :
  existsb (String.eqb k) (keys d) = false -> dict_get d k = None.
Proof.
  intros E. apply dict_get_absent. intros Hin.
  assert (T : existsb (String.eqb k) (keys d) = true).
  { apply existsb_exists. exists k. split; [exact Hin | apply String.eqb_refl]. }
  congruence.
Qed.

Lemma stripped_cons (p : string) (k : string) (v : NDArray) (d : dict) :
  stripped p ((k, v) :: d) =
  if startswith k p then (slice_from (String.length p) k, v) :: stripped p d
  else stripped p d.
Proof. unfold stripped. simpl. now destruct (startswith k p). Qed.

Lemma stripped_key_origin (p s : string) (d : dict) :
  In s (keys (stripped p d)) -> In (String.append p s) (keys d).
Proof.
  induction d as [|[k v] d IH]; [contradiction|].
  rewrite stripped_cons. simpl. destruct (startswith k p) eqn:A.
  - simpl. intros [E | Hin]; [|right; now apply IH].
    left. subst s. now apply startswith_split.
  - intros Hin. right. now apply IH.
Qed.

Lemma stripped_keys_NoDup (p : string) (d : dict) :
  NoDup (keys d) -> NoDup (keys (stripped p d)).
Proof.
  induction d as [|[k v] d IH]; intros Hn; [constructor|].
  inversion Hn as [|? ? Hk Hn']; subst.
  rewrite stripped_cons. destruct (startswith k p) eqn:A; [|now apply IH].
  simpl. constructor; [|now apply IH].
  intros Hin. apply stripped_key_origin in Hin.
  rewrite <- (startswith_split p k A) in Hin. contradiction.
Qed.

Lemma arg_key_not_aux (k : string) :
  startswith k "arg:" = true -> startswith k "aux:" = false.
Proof.
  intros A. rewrite (startswith_split "arg:" k A). reflexivity.
Qed.

Lemma fold_split_exact (params : dict) (l : dict) :
  (forall k v, In (k, v) l -> dict_get params k = Some v) ->
  forall arg aux,
    NoDup (keys arg ++ keys (stripped "arg:" l)) ->
    NoDup (keys aux ++ keys (stripped "aux:" l)) ->
    fold_left (split_step params) (keys l) (Some (arg, aux)) =
    Some ((arg ++ stripped "arg:" l)%list, (aux ++ stripped "aux:" l)%list).
Proof.
  induction l as [|[k v] l IH]; intros Hg arg aux Na Nx.
  - simpl. unfold stripped. simpl. now rewrite !app_nil_r.
  - assert (Hg' : forall k' v', In (k', v') l -> dict_get params k' = Some v')
      by (intros k' v' Hin; apply Hg; now right).
    cbn [keys map fst fold_left]. unfold split_step at 2.
    rewrite (Hg k v (or_introl eq_refl)).
    rewrite !stripped_cons in *.
    destruct (startswith k "arg:") eqn:A.
    + rewrite (arg_key_not_aux k A) in *.
      change (String.length "arg:") with 4%nat in *.
      rewrite dict_set_fresh.
      * rewrite (IH Hg').
        -- now rewrite <- app_assoc.
        -- unfold keys in *. now rewrite map_app, <- app_assoc.
        -- exact Nx.
      * intros Hin. apply (NoDup_remove_2 _ _ _ Na).
        apply in_or_app. now left.
    + destruct (startswith k "aux:") eqn:B.
      * change (String.length "aux:") with 4%nat in *.
        rewrite dict_set_fresh.
        -- rewrite (IH Hg').
           ++ now rewrite <- app_assoc.
           ++ exact Na.
           ++ unfold keys in *. now rewrite map_app, <- app_assoc.
        -- intros Hin. apply (NoDup_remove_2 _ _ _ Nx).
           apply in_or_app. now left.
      * now apply IH.
Qed.

End Facts.

(** X11.  The split never fails with a missing key, and the two dicts it
    builds are the prefixed parts of [params] under the stripped names:
    [arg] holds at [s] what [params] holds at ["arg:" + s], [aux] what it
    holds at ["aux:" + s], and nothing else; a key with neither prefix
    reaches neither dict. *)
Theorem split_params_lookup (NDArray : Type) (params : dict NDArray) :
  exists arg aux,
    split_params params = Some (arg, aux) /\
    forall s,
      dict_get arg s = dict_get params (String.append "arg:" s) /\
      dict_get aux s = dict_get params (String.append "aux:" s).
Proof.
  destruct (fold_split_total NDArray params (keys params) (fun k H => H) [] [])
    as [arg [aux F]].
  exists arg, aux. split; [exact F|].
  intros s. destruct (fold_split_lookup NDArray params _ _ _ _ _ F s) as [Ha Hx].
  split.
  - rewrite Ha.
    destruct (existsb (String.eqb (String.append "arg:" s)) (keys params)) eqn:E;
      [reflexivity|].
    now rewrite (existsb_keys_absent NDArray params _ E).
  - rewrite Hx.
    destruct (existsb (String.eqb (String.append "aux:" s)) (keys params)) eqn:E;
      [reflexivity|].
    now rewrite (existsb_keys_absent NDArray params _ E).
Qed.

(** X12.  For a dict, whose keys are distinct, the split keeps the order of
    [params]: [arg] is exactly the list of its entries whose key starts with
    ["arg:"], in order, each under its key without the prefix, and [aux]
    likewise for ["aux:"]. *)
Theorem split_params_exact (NDArray : Type) (params : dict NDArray) :
  NoDup (keys params) ->
  split_params params = Some (stripped "arg:" params, stripped "aux:" params).
Proof.
  intros Hn. unfold split_params.
  apply (fold_split_exact NDArray params params).
  - intros k v Hin. now apply dict_get_entry.
  - simpl. now apply stripped_keys_NoDup.
  - simpl. now apply stripped_keys_NoDup.
Qed.

Lemma split_params_exact_witness :
  let params : dict nat :=
    [("arg:conv0_weight"%string, 1%nat); ("aux:bn0_moving_var"%string, 2%nat);
     ("data"%string, 3%nat); ("arg:fc1_bias"%string, 4%nat)] in
  NoDup (keys params) /\
  split_params params =
  Some ([("conv0_weight"%string, 1%nat); ("fc1_bias"%string, 4%nat)],
        [("bn0_moving_var"%string, 2%nat)]).
Proof.
  intros params.
  assert (Hn : NoDup (keys params)).
  { repeat constructor; simpl; intros H;
      repeat (destruct H as [H | H]; [discriminate H|]); exact H. }
  split; [exact Hn|].
  exact (split_params_exact nat params Hn).
Defined.

End DeployRcnnFacts.
